(** * The PoC dispatch engine of solaudit-agent

    The TypeScript installed into [packages/engine/src/proof/llm-poc-generator.ts]
    by the patch scripts [fix-poc-gen.py] and [fix-poc-review.py]: provider
    resolution, the numeric configuration loader, the retry loop of [callLLM],
    the cooldown of the dispatch loop and the grep token of the run command.

    The definitions follow the replacement text of [fix-poc-review.py] (the
    final state of the file); the dispatch loop body comes from
    [fix-poc-gen.py], which the later script leaves unchanged.

    Beside these: the Python helper [replace_in] of the scripts, the
    configuration functions and loop that [fix-poc-gen.py] installs (module
    [Gen]), and the submission endpoint that [apply-submission.py] writes
    (module [Submission]).

    JavaScript strings are modelled as Rocq strings with ASCII case folding
    and ASCII white space; code points above 127 are outside the model. *)

From Stdlib Require Import ZArith String Ascii List Bool Lia DecimalString DecimalPos.
From stdpp Require Import base strings gmap.
Import ListNotations.

Local Open Scope string_scope.
Local Open Scope Z_scope.

(** ** JavaScript string primitives *)

Module Js.

Definition dquote : string := String (ascii_of_nat 34) EmptyString.

Definition lowerChar (c : ascii) : ascii :=
  let n := nat_of_ascii c in
  if ((65 <=? n) && (n <=? 90))%nat then ascii_of_nat (n + 32) else c.

Fixpoint toLowerCase (s : string) : string :=
  match s with
  | EmptyString => EmptyString
  | String c r => String (lowerChar c) (toLowerCase r)
  end.

(** [s.includes(t)] *)
Fixpoint includes (s t : string) : bool :=
  String.prefix t s ||
  match s with
  | EmptyString => false
  | String _ r => includes r t
  end.

(** TAB, LF, VT, FF, CR and SPACE. *)
Definition isWhiteSpace (c : ascii) : bool :=
  let n := nat_of_ascii c in
  (((9 <=? n) && (n <=? 13)) || (n =? 32))%nat.

Fixpoint trimStart (s : string) : string :=
  match s with
  | String c r => if isWhiteSpace c then trimStart r else s
  | EmptyString => EmptyString
  end.

(** [s.trim().length === 0] *)
Definition isBlank (s : string) : bool :=
  match trimStart s with EmptyString => true | _ => false end.

(** [s.slice(0, n)] *)
Definition sliceTo (n : nat) (s : string) : string := String.substring 0 n s.

(** Truthiness of a possibly undefined string: [undefined] and the empty
    string are falsy. *)
Definition truthy (v : option string) : bool :=
  match v with
  | Some (String _ _) => true
  | _ => false
  end.

(** [a || b] on possibly undefined strings. *)
Definition orElse (a b : option string) : option string :=
  if truthy a then a else b.

(** A JavaScript number as far as [parseInt] can produce one. *)
Inductive num : Type :=
| NaN
| Inf (negative : bool)
| Fin (z : Z).

(** [Number.isFinite] *)
Definition isFinite (n : num) : bool :=
  match n with Fin _ => true | _ => false end.

Definition isDigit (c : ascii) : bool :=
  let n := nat_of_ascii c in ((48 <=? n) && (n <=? 57))%nat.

Definition digitVal (c : ascii) : Z := Z.of_nat (nat_of_ascii c) - 48.

(** The longest prefix of decimal digits, as a digit count and a value. *)
Fixpoint digits (s : string) (count : nat) (acc : Z) : nat * Z :=
  match s with
  | String c r =>
      if isDigit c then digits r (S count) (10 * acc + digitVal c)
      else (count, acc)
  | EmptyString => (count, acc)
  end.

(** The Number value of a non-negative mathematical integer: exact up to
    53 significant bits, round-to-nearest-even beyond, Infinity from
    2^1024 on. *)
Definition toNumber (negative : bool) (m : Z) : num :=
  let sign := if negative then -1 else 1 in
  let bits := if m =? 0 then 0 else Z.log2 m + 1 in
  if bits <=? 53 then Fin (sign * m)
  else
    let sh := bits - 53 in
    let q := Z.shiftr m sh in
    let r := Z.land m (Z.ones sh) in
    let half := Z.shiftl 1 (sh - 1) in
    let q' := if (half <? r) || ((r =? half) && Z.odd q) then q + 1 else q in
    let v := Z.shiftl q' sh in
    if 2 ^ 1024 <=? v then Inf negative else Fin (sign * v).

(** [parseInt(s, 10)]: leading white space, an optional sign, then the
    longest run of decimal digits; [NaN] when there is no digit. *)
Definition parseInt10 (s : string) : num :=
  let t := trimStart s in
  let '(negative, body) :=
    match t with
    | String "-" r => (true, r)
    | String "+" r => (false, r)
    | _ => (false, t)
    end in
  match digits body 0 0 with
  | (O, _) => NaN
  | (_, m) => toNumber negative m
  end.

End Js.

(** ** Configuration *)

(** [process.env] *)
Abbreviation Env := (gmap string string).

(** [type PocProvider = "kimi_code" | "moonshot"] *)
Inductive PocProvider : Type := kimi_code | moonshot.

Definition providerName (p : PocProvider) : string :=
  match p with kimi_code => "kimi_code" | moonshot => "moonshot" end.

Definition resolvePocProvider (env : Env) : PocProvider :=
  let explicit := Js.toLowerCase <$> (env !! "POC_PROVIDER") in
  if decide (explicit = Some "kimi_code") then kimi_code
  else if decide (explicit = Some "moonshot") then moonshot
  else if Js.truthy (env !! "KIMI_CODE_API_KEY") then kimi_code else moonshot.

Definition getPocApiUrl (env : Env) : string :=
  match resolvePocProvider env with
  | kimi_code => "https://api.kimi.com/coding/v1/chat/completions"
  | moonshot => "https://api.moonshot.ai/v1/chat/completions"
  end.

(** [string | null] is [option string]; [x || null] drops the empty string. *)
Definition getPocApiKey (env : Env) : option string :=
  match resolvePocProvider env with
  | kimi_code => Js.orElse (env !! "KIMI_CODE_API_KEY") None
  | moonshot => Js.orElse (env !! "MOONSHOT_API_KEY") None
  end.

Definition getPocModel (env : Env) : string :=
  default "kimi-k2.5"
    (Js.orElse (env !! "LLM_POC_MODEL")
       (Js.orElse (env !! "MOONSHOT_MODEL") (Some "kimi-k2.5"))).

(** The [n] of [safeInt]: [v ? parseInt(v, 10) : NaN]. *)
Definition envInt (env : Env) (key : string) : Js.num :=
  let v := env !! key in
  if Js.truthy v then Js.parseInt10 (default "" v) else Js.NaN.

Definition safeInt (env : Env) (key : string) (fallback : Z) : Z :=
  match envInt env key with
  | Js.Fin z => z
  | _ => fallback
  end.

Record PocCfg : Type := {
  maxTokens : Z;
  timeoutMs : Z;
  retries : Z;
  concurrency : Z;
  maxPocs : Z;
  interRequestDelayMs : Z
}.

Definition POC_CFG (env : Env) : PocCfg := {|
  maxTokens := safeInt env "LLM_POC_MAX_TOKENS" 4096;
  timeoutMs := safeInt env "LLM_POC_TIMEOUT_MS" 120000;
  retries := safeInt env "LLM_POC_RETRIES" 2;
  concurrency := safeInt env "LLM_POC_CONCURRENCY" 1;
  maxPocs := safeInt env "LLM_POC_MAX" 10;
  interRequestDelayMs := safeInt env "LLM_POC_DELAY_MS" 2000
|}.

(** The numeric settings: environment variable, field, documented default. *)
Definition cfgEntries : list (string * (PocCfg -> Z) * Z) :=
  [ ("LLM_POC_MAX_TOKENS", maxTokens, 4096);
    ("LLM_POC_TIMEOUT_MS", timeoutMs, 120000);
    ("LLM_POC_RETRIES", retries, 2);
    ("LLM_POC_CONCURRENCY", concurrency, 1);
    ("LLM_POC_MAX", maxPocs, 10);
    ("LLM_POC_DELAY_MS", interRequestDelayMs, 2000) ].

(** The environment variable holding a provider's credential. *)
Definition credentialVar (p : PocProvider) : string :=
  match p with
  | kimi_code => "KIMI_CODE_API_KEY"
  | moonshot => "MOONSHOT_API_KEY"
  end.

(** ** The request executor: [callLLM] *)

(** The JSON body and headers of the [fetch]; [temperature] is the constant 1
    and the two messages are the arguments [system] and [user]. *)
Record Request : Type := {
  req_url : string;
  req_bearer : string;
  req_model : string;
  req_max_tokens : Z;
  req_system : string;
  req_user : string
}.

(** What [callLLM] reads of a response: [res.status], [res.text()] (the
    empty string when reading it fails) and
    [data.choices?.[0]?.message?.content] of [res.json()]. *)
Record Response : Type := {
  status : Z;
  body : string;
  content : option string
}.

(** [res.ok] *)
Definition ok (res : Response) : bool :=
  (200 <=? status res) && (status res <=? 299).

Inductive LlmError : Type :=
| KeyNotSet (apiName : string) (provider : PocProvider)
| HttpError (apiName : string) (status : Z) (detail : string)
| Deterministic400 (apiName : string) (detail : string)
| EmptyResponse.

Definition showZ (z : Z) : string :=
  DecimalString.NilZero.string_of_int (Z.to_int z).

Definition errorMessage (e : LlmError) : string :=
  match e with
  | KeyNotSet apiName provider =>
      apiName ++ " API key not set (POC_PROVIDER=" ++ providerName provider ++ ")"
  | HttpError apiName st detail => apiName ++ " " ++ showZ st ++ ": " ++ detail
  | Deterministic400 apiName detail => apiName ++ " 400 (deterministic): " ++ detail
  | EmptyResponse => "Empty response after retries"
  end.

Definition apiNameOf (p : PocProvider) : string :=
  match p with kimi_code => "Kimi Code" | moonshot => "Moonshot" end.

Definition transient : list string :=
  ["rate limit"; "overloaded"; "try again"; "temporarily"; "throttl"].

(** [transient.some((t) => lower.includes(t))] *)
Definition hasTransient (lower : string) : bool :=
  existsb (fun t => Js.includes lower t) transient.

Definition hasTokenLimit (lower : string) : bool :=
  Js.includes lower "max_tokens" || Js.includes lower "context length"
  || Js.includes lower "too many tokens".

(** [3000 * Math.pow(2, attempt)] *)
Definition backoffDelay (attempt : nat) : Z := 3000 * 2 ^ Z.of_nat attempt.

(** [res.status === 429 || res.status >= 500] *)
Definition backoffStatus (st : Z) : bool := (st =? 429) || (500 <=? st).

(** [!content || content.trim().length === 0] *)
Definition emptyContent (text : option string) : bool :=
  negb (Js.truthy text) || Js.isBlank (default "" text).

(** How one pass through the body of the [for] loop ends. *)
Inductive Step : Type :=
| Return (text : string)
| Continue (sleepMs : Z) (maxTokens' : Z)
| Throw (e : LlmError).

(** The statements of the [try] block after the [fetch] has answered. A
    fetch that is aborted by the timer or fails in transport, and a payload
    that is not JSON, throw into the [catch] clause and are not modelled. *)
Definition classify (cfg : PocCfg) (apiName : string)
    (attempt : nat) (maxTok : Z) (res : Response) : Step :=
  let more := Z.of_nat attempt <? retries cfg in
  if backoffStatus (status res) then
    if more then Continue (backoffDelay attempt) maxTok
    else Throw (HttpError apiName (status res) (Js.sliceTo 300 (body res)))
  else if status res =? 400 then
    let lower := Js.toLowerCase (body res) in
    if hasTransient lower && more then Continue (backoffDelay attempt) maxTok
    else if hasTokenLimit lower && more && (2048 <? maxTok)
    then Continue 1000 (maxTok / 2)
    else Throw (Deterministic400 apiName (Js.sliceTo 300 (body res)))
  else if negb (ok res) then
    Throw (HttpError apiName (status res) (body res))
  else
    if emptyContent (content res) then
      if more then Continue 1000 maxTok else Throw EmptyResponse
    else Return (default "" (content res)).

(** What the caller of [callLLM] observes. *)
Inductive Outcome : Type :=
| Resolved (text : string)
| Rejected (e : LlmError)
| FellThrough.

Inductive Event : Type :=
| Fetch (r : Request)
| Sleep (ms : Z).

(** Modelled from the spec: the [catch] clause closing the [try] block of
    [callLLM], which lies outside the replaced text. Section 4.2 makes
    FatalFail terminal, so an error thrown by the block rejects the call. *)
Definition catchClause (e : LlmError) : Outcome := Rejected e.

Section Executor.

Variable env : Env.
Variable cfg : PocCfg.
(** The network: the answer to the [fetch] of a given attempt. *)
Variable net : nat -> Request -> Response.
Variables system user : string.

Definition mkRequest (apiKey : string) (maxTok : Z) : Request := {|
  req_url := getPocApiUrl env;
  req_bearer := apiKey;
  req_model := getPocModel env;
  req_max_tokens := maxTok;
  req_system := system;
  req_user := user
|}.

(** [for (let attempt = 0; attempt <= POC_CFG.retries; attempt++)], with
    [n] the number of passes left; the code after the loop is outside the
    replaced text and shows as [FellThrough]. *)
Fixpoint attempts (apiKey : string) (n attempt : nat) (maxTok : Z)
    : Outcome * list Event :=
  match n with
  | O => (FellThrough, [])
  | S n' =>
      let req := mkRequest apiKey maxTok in
      let apiName := apiNameOf (resolvePocProvider env) in
      match classify cfg apiName attempt maxTok (net attempt req) with
      | Return text => (Resolved text, [Fetch req])
      | Continue ms maxTok' =>
          let '(o, tr) := attempts apiKey n' (S attempt) maxTok' in
          (o, Fetch req :: Sleep ms :: tr)
      | Throw e => (catchClause e, [Fetch req])
      end
  end.

(** [if (!apiKey) throw] comes before the loop and outside the [try];
    [getPocApiKey] yields no empty string, so [!apiKey] is [None]. *)
Definition callLLM : Outcome * list Event :=
  let provider := resolvePocProvider env in
  match getPocApiKey env with
  | None => (Rejected (KeyNotSet (apiNameOf provider) provider), [])
  | Some apiKey => attempts apiKey (Z.to_nat (retries cfg + 1)) 0 (maxTokens cfg)
  end.

End Executor.

(** The requests of a trace, in order, and its sleeps. *)
Definition fetches (tr : list Event) : list Request :=
  flat_map (fun e => match e with Fetch r => [r] | Sleep _ => [] end) tr.

Definition sleeps (tr : list Event) : list Z :=
  flat_map (fun e => match e with Sleep ms => [ms] | Fetch _ => [] end) tr.

Definition http (st : Z) (b : string) : Response :=
  {| status := st; body := b; content := None |}.

Definition completion (text : string) : Response :=
  {| status := 200; body := ""; content := Some text |}.

(** ** The batch dispatcher *)

(** One item's pass through the limiter, on the dispatcher's clock (ms). *)
Record Slot (A : Type) : Type := {
  admitted : Z;
  slept : option Z;
  issued : Z;
  finished : Z;
  outcome : A
}.
Arguments admitted {A} _.
Arguments slept {A} _.
Arguments issued {A} _.
Arguments finished {A} _.
Arguments outcome {A} _.

(** What [generateSinglePoC] does for one item: how long it runs and what
    it resolves to ([A] is its result type, success or failure). *)
Record Work (A : Type) : Type := { took : Z; result : A }.
Arguments took {A} _.
Arguments result {A} _.

Section Dispatcher.

Context {T A : Type}.
Variable cfg : PocCfg.
(** [generateSinglePoC(finding, program, enriched, patch)] for the item at
    index [idx]. *)
Variable generateSinglePoC : nat -> T -> Work A.
(** How long [await sleep(ms)] suspends the task. *)
Variable sleepTakes : Z -> Z.

(** [pLimit(concurrency)] as the times at which each of its lanes is
    free: the queue is first-in first-out, so the next task starts at the
    earliest of them. *)
Definition earliest (lanes : list Z) : Z :=
  fold_right Z.min (hd 0 lanes) lanes.

Fixpoint occupy (lanes : list Z) (from till : Z) : list Z :=
  match lanes with
  | [] => []
  | x :: r => if x =? from then till :: r else x :: occupy r from till
  end.

(** [toProcess.map((finding, idx) => limit(async () => { ... }))] *)
Fixpoint schedule (lanes : list Z) (idx : nat) (toProcess : list T)
    : list (Slot A) :=
  match toProcess with
  | [] => []
  | finding :: rest =>
      let t0 := earliest lanes in
      let cooldown :=
        if (0 <? idx)%nat then Some (interRequestDelayMs cfg) else None in
      let t1 :=
        match cooldown with
        | Some ms => t0 + sleepTakes ms
        | None => t0
        end in
      let w := generateSinglePoC idx finding in
      let t2 := t1 + took w in
      {| admitted := t0; slept := cooldown; issued := t1; finished := t2;
         outcome := result w |}
      :: schedule (occupy lanes t0 t2) (S idx) rest
  end.

(** [pLimit] rejects a concurrency below 1 with a [TypeError]. *)
Definition dispatch (toProcess : list T) : option (list (Slot A)) :=
  if 1 <=? concurrency cfg
  then Some (schedule (repeat 0 (Z.to_nat (concurrency cfg))) 0 toProcess)
  else None.

End Dispatcher.

(** ** Run command and fallback scaffold *)

(** The fields of a finding that the templates read. The type of
    [finding.classId] is not declared in the replaced text and the templates
    only print it, so [classId] is the text that [${finding.classId}]
    prints: 42 for the number 42 of the prompt's example, 1e+21 for the
    number 1e21. *)
Record Finding : Type := {
  classId : string;
  className : string;
  title : string
}.

(** The token the system prompt asks for: ["PoC#"] followed by the class ID. *)
Definition grepToken (finding : Finding) : string :=
  "PoC#" ++ classId finding.

Definition runCommand (isAnchor : bool) (finding : Finding) (safeName : string)
    : string :=
  if isAnchor
  then "cd <repo> && anchor test -- --grep " ++ Js.dquote ++ "PoC#"
       ++ classId finding ++ Js.dquote
  else "cd <repo> && cargo test-sbf poc_" ++ classId finding ++ "_"
       ++ safeName.

(** The opening of the fallback test file's [describe] block. *)
Definition fallbackDescribe (finding : Finding) : string :=
  "describe(" ++ Js.dquote ++ "PoC#" ++ classId finding ++ ": "
  ++ className finding.

(** The rule that the fourth step adds to the system prompt. *)
Definition describeRule : string :=
  "- The describe block MUST start with " ++ Js.dquote ++ "PoC#" ++ Js.dquote
  ++ " followed by the class ID, e.g. describe(" ++ Js.dquote
  ++ "PoC#42: missing_signer" ++ Js.dquote ++ ", ...)".

(** Characters with a meaning in a regular expression. *)
Definition regexMeta : list ascii :=
  list_ascii_of_string "\^$.|?*+()[]{}".

Definition safeChar (c : ascii) : bool := negb (existsb (Ascii.eqb c) regexMeta).

Definition regexSafe (s : string) : bool :=
  forallb safeChar (list_ascii_of_string s).

(** ** The patch scripts: [replace_in] *)

(** The Python helper that all three scripts define. Files are a map from
    path to text; the line each call prints and the newline translation of
    text mode are left out. *)
Module Py.

Fixpoint drop (n : nat) (s : string) : string :=
  match n, s with
  | S n', String _ r => drop n' r
  | _, _ => s
  end.

(** [old in content] *)
Fixpoint isIn (old content : string) : bool :=
  String.prefix old content ||
  match content with
  | EmptyString => false
  | String _ r => isIn old r
  end.

(** [content.replace(old, new, 1)] *)
Fixpoint replace1 (content old new : string) : string :=
  if String.prefix old content then new ++ drop (String.length old) content
  else
    match content with
    | EmptyString => EmptyString
    | String c r => String c (replace1 r old new)
    end.

(** [content.find(old)] *)
Fixpoint find (content old : string) : option nat :=
  if String.prefix old content then Some 0%nat
  else
    match content with
    | EmptyString => None
    | String _ r => S <$> find r old
    end.

End Py.

Abbreviation Files := (gmap string string).

(** [open(path)] raises when the file is missing; otherwise the call
    returns [False] or [True] and leaves the files as given. *)
Inductive Patched : Type :=
| FileNotFoundError (path : string)
| Returned (fs : Files) (value : bool).

Definition replace_in (fs : Files) (path old new : string) : Patched :=
  match fs !! path with
  | None => FileNotFoundError path
  | Some content =>
      if negb (Py.isIn old content) then Returned fs false
      else Returned (<[path := Py.replace1 content old new]> fs) true
  end.

(** A script is a run of [replace_in] calls whose results are dropped; an
    exception ends it. *)
Fixpoint runSteps (fs : Files) (steps : list (string * string * string))
    : Patched :=
  match steps with
  | [] => Returned fs true
  | (path, old, new) :: rest =>
      match replace_in fs path old new with
      | FileNotFoundError p => FileNotFoundError p
      | Returned fs' _ => runSteps fs' rest
      end
  end.

(** [old] occurs in [pre ++ old] at its end only. *)
Definition firstOccurrence (pre old : string) : Prop :=
  forall a b, pre ++ old = a ++ old ++ b -> b = "".

(** ** The version installed by [fix-poc-gen.py] *)

(** The configuration functions and the [try] block that [fix-poc-gen.py]
    writes and [fix-poc-review.py] replaces. The loop is modelled for a
    configuration whose numbers are finite. *)
Module Gen.

Definition getPocApiUrl (env : Env) : string :=
  if Js.truthy (env !! "KIMI_CODE_API_KEY")
  then "https://api.kimi.com/coding/v1/chat/completions"
  else "https://api.moonshot.ai/v1/chat/completions".

Definition getPocApiKey (env : Env) : option string :=
  Js.orElse (env !! "KIMI_CODE_API_KEY")
    (Js.orElse (env !! "MOONSHOT_API_KEY") None).

Definition getPocModel (env : Env) : string :=
  default "kimi-k2.5"
    (Js.orElse (env !! "KIMI_PATCH_MODEL")
       (Js.orElse (env !! "MOONSHOT_MODEL") (Some "kimi-k2.5"))).

(** [const apiName = process.env.KIMI_CODE_API_KEY ? "Kimi Code" : "Moonshot"] *)
Definition apiName (env : Env) : string :=
  if Js.truthy (env !! "KIMI_CODE_API_KEY") then "Kimi Code" else "Moonshot".

(** [function int(key, fallback)]: [v ? parseInt(v, 10) : fallback] *)
Definition int (env : Env) (key : string) (fallback : Z) : Js.num :=
  let v := env !! key in
  if Js.truthy v then Js.parseInt10 (default "" v) else Js.Fin fallback.

(** The statements of the [try] block after the [fetch]: 400 is retried
    like 429 and 5xx, and [max_tokens] stays as configured. *)
Definition classify (cfg : PocCfg) (apiName : string)
    (attempt : nat) (maxTok : Z) (res : Response) : Step :=
  let more := Z.of_nat attempt <? retries cfg in
  if backoffStatus (status res) || (status res =? 400) then
    if more then Continue (backoffDelay attempt) maxTok
    else Throw (HttpError apiName (status res) (Js.sliceTo 300 (body res)))
  else if negb (ok res) then
    Throw (HttpError apiName (status res) (body res))
  else
    if emptyContent (content res) then
      if more then Continue 1000 maxTok else Throw EmptyResponse
    else Return (default "" (content res)).

Definition mkRequest (env : Env) (system user apiKey : string) (maxTok : Z)
    : Request := {|
  req_url := getPocApiUrl env;
  req_bearer := apiKey;
  req_model := getPocModel env;
  req_max_tokens := maxTok;
  req_system := system;
  req_user := user
|}.

(** The loop of [callLLM] once the key is there. *)
Fixpoint attempts (env : Env) (cfg : PocCfg) (net : nat -> Request -> Response)
    (system user apiKey : string) (n attempt : nat) : Outcome * list Event :=
  match n with
  | O => (FellThrough, [])
  | S n' =>
      let req := mkRequest env system user apiKey (maxTokens cfg) in
      match classify cfg (apiName env) attempt (maxTokens cfg) (net attempt req) with
      | Return text => (Resolved text, [Fetch req])
      | Continue ms _ =>
          let '(o, tr) := attempts env cfg net system user apiKey n' (S attempt) in
          (o, Fetch req :: Sleep ms :: tr)
      | Throw e => (catchClause e, [Fetch req])
      end
  end.

End Gen.

(** The text an error carries after its label. *)
Definition errorDetail (e : LlmError) : string :=
  match e with
  | HttpError _ _ detail => detail
  | Deterministic400 _ detail => detail
  | KeyNotSet _ _ => ""
  | EmptyResponse => ""
  end.

Definition sumZ (l : list Z) : Z := fold_right Z.add 0 l.

(** The time [generateSinglePoC] takes on the first [k] items, the first of
    them at index [idx]. *)
Fixpoint workDone {T A : Type} (gen : nat -> T -> Work A) (idx : nat)
    (items : list T) (k : nat) : Z :=
  match k, items with
  | S k', finding :: rest => took (gen idx finding) + workDone gen (S idx) rest k'
  | _, _ => 0
  end.

(** ** The submission endpoint written by [apply-submission.py] *)

(** [GET /api/audits/[id]/submission]. The job is what the database query
    returned, artifacts included; the fields that are copied from the job
    as they are (id, repository, findings) are left out of the body. *)
Module Submission.

Record Run : Type := { prUrl : option string; writeupUrl : option string }.

Record Artifact : Type := {
  name : string;
  purpose : option string;
  objectKey : string
}.

(** [runs] is [summary?.runs]. *)
Record Job : Type := {
  status : string;
  runs : option (list Run);
  artifacts : list Artifact
}.

(** [prisma.auditJob.findUnique] throws, finds nothing, or finds the job. *)
Inductive Lookup : Type :=
| Throws
| Missing
| Found (job : Job).

(** [for (const run of summary.runs) if (run.x) x = run.x], from [null]. *)
Definition lastSet (get : Run -> option string) (rs : list Run) : option string :=
  fold_left (fun acc run => if Js.truthy (get run) then get run else acc) rs None.

(** The test of [job.artifacts.find]. *)
Definition isWriteup (a : Artifact) : bool :=
  Js.includes (name a) "submission"
  || bool_decide (purpose a = Some "bounty_submission").

Definition message (prUrl writeup : option string) : string :=
  if Js.truthy prUrl && Js.truthy writeup
  then "Submission ready. Use prUrl and writeupUrl for the bounty API call."
  else "Missing: "
       ++ (if negb (Js.truthy prUrl) then "PR link" else "")
       ++ (if negb (Js.truthy prUrl) && negb (Js.truthy writeup) then " + " else "")
       ++ (if negb (Js.truthy writeup) then "writeup link" else "").

Record Body : Type := {
  ready : bool;
  bodyPrUrl : option string;
  bodyWriteupUrl : option string;
  writeupGistUrl : option string;
  writeupR2Url : option string;
  bodyMessage : string
}.

Inductive Reply : Type :=
| AuthError
| Json404
| Json400 (jobStatus : string)
| Json200 (body : Body)
| Json500.

(** [getSignedUrl key] is [storage.getSignedUrl(key, 86400)], [None] when
    it throws; [authErr] is whether [validateApiKey] returned an error. *)
Definition GET (authErr : bool) (lookup : Lookup)
    (getSignedUrl : string -> option string) : Reply :=
  if authErr then AuthError
  else
    match lookup with
    | Throws => Json500
    | Missing => Json404
    | Found job =>
        if negb (String.eqb (status job) "SUCCEEDED") then Json400 (status job)
        else
          let rs := default [] (runs job) in
          let prUrl := lastSet prUrl rs in
          let writeupUrl := lastSet writeupUrl rs in
          let r2 :=
            match List.find isWriteup (artifacts job) with
            | Some a => getSignedUrl (objectKey a)
            | None => None
            end in
          let writeup := Js.orElse writeupUrl r2 in
          Json200 {|
            ready := Js.truthy prUrl && Js.truthy writeup;
            bodyPrUrl := prUrl;
            bodyWriteupUrl := writeup;
            writeupGistUrl := writeupUrl;
            writeupR2Url := r2;
            bodyMessage := message prUrl writeup
          |}
    end.

End Submission.

(** ** Scenarios *)

Definition malformedEnv : Env :=
  <["LLM_POC_RETRIES" := "two"]> (<["LLM_POC_MAX_TOKENS" := ""]> ∅).

(** POC_PROVIDER names moonshot although only the Kimi Code key is set. *)
Definition overrideEnv : Env :=
  <["POC_PROVIDER" := "MoonShot"]> (<["KIMI_CODE_API_KEY" := "sk-kimi"]> ∅).

Definition modelEnv : Env :=
  <["MOONSHOT_MODEL" := "kimi-latest"]> (<["LLM_POC_MODEL" := ""]>
    (<["MOONSHOT_API_KEY" := "sk-moon"]> ∅)).

(** Only the Moonshot key is set: every numeric setting is at its default. *)
Definition keyEnv : Env := <["MOONSHOT_API_KEY" := "sk-moon"]> ∅.

Definition keyReq : Request :=
  mkRequest keyEnv "sys" "usr" "sk-moon" 4096.

(** 429, then 503, then a completion. *)
Definition busyTwice (attempt : nat) (_ : Request) : Response :=
  match attempt with
  | 0%nat => http 429 "slow down"
  | 1%nat => http 503 "unavailable"
  | _ => completion "it('drains the vault')"
  end.

Definition bothMarkers : Response :=
  http 400 "Rate limit reached: too many tokens per minute".

(** 429, then 500, then a completion of white space. *)
Definition busyThenEmpty (attempt : nat) (_ : Request) : Response :=
  match attempt with
  | 0%nat => http 429 "slow down"
  | 1%nat => http 500 "oops"
  | _ => completion "  "
  end.

Definition finding42 : Finding :=
  {| classId := "42"; className := "missing_signer";
     title := "Missing signer check in withdraw()" |}.

Definition threeFindings : list Finding :=
  [finding42;
   {| classId := "7"; className := "integer_overflow"; title := "Overflow: a+b*c" |};
   {| classId := "13"; className := "pda_seed_collision"; title := "Seeds [x] collide" |}].

(** The second item fails after 9 s; the others succeed after 4 s. *)
Definition flaky (idx : nat) (_ : Finding) : Work bool :=
  if (idx =? 1)%nat then {| took := 9000; result := false |}
  else {| took := 4000; result := true |}.

Definition threeSlots : list (Slot bool) :=
  [ {| admitted := 0; slept := None; issued := 0; finished := 4000;
       outcome := true |};
    {| admitted := 4000; slept := Some 2000; issued := 6000; finished := 15000;
       outcome := false |};
    {| admitted := 15000; slept := Some 2000; issued := 17000; finished := 21000;
       outcome := true |} ].

(** The same class under another title and name. *)
Definition retitled42 : Finding :=
  {| classId := "42"; className := "signer_missing";
     title := "withdraw(): no signer? (critical)" |}.

Definition prefixEnv : Env := <["LLM_POC_RETRIES" := "12abc"]> ∅.

Definition kimiOverrideEnv : Env :=
  <["POC_PROVIDER" := "KIMI_CODE"]> (<["MOONSHOT_API_KEY" := "sk-moon"]> ∅).

(** Both model variables are set: LLM_POC_MODEL wins. *)
Definition pocModelEnv : Env :=
  <["LLM_POC_MODEL" := "kimi-k2-turbo"]> (<["MOONSHOT_MODEL" := "kimi-latest"]> ∅).

(** The timeline when every item fails after 100 ms. *)
Definition allFailSlots : list (Slot bool) :=
  [ {| admitted := 0; slept := None; issued := 0; finished := 100;
       outcome := false |};
    {| admitted := 100; slept := Some 2000; issued := 2100; finished := 2200;
       outcome := false |};
    {| admitted := 2200; slept := Some 2000; issued := 4200; finished := 4300;
       outcome := false |} ].

Definition twoFiles : Files :=
  <["a.ts" := "const k = 1; const k = 1;"]>
    (<["b.ts" := "doc: null, prUrl: null, }"]> ∅).

(** LLM_POC_RETRIES is negative. *)
Definition noRetriesEnv : Env := <["LLM_POC_RETRIES" := "-1"]> ∅.

Definition invalidModel (_ : nat) : Response := http 400 "invalid model".

(** A finished audit with two pull requests and a stored writeup, but no
    writeup link recorded by a run. *)
Definition doneJob : Submission.Job := {|
  Submission.status := "SUCCEEDED";
  Submission.runs := Some
    [ {| Submission.prUrl := Some "https://github.com/o/r/pull/1";
         Submission.writeupUrl := None |};
      {| Submission.prUrl := Some "https://github.com/o/r/pull/2";
         Submission.writeupUrl := Some "" |};
      {| Submission.prUrl := None; Submission.writeupUrl := None |} ];
  Submission.artifacts :=
    [ {| Submission.name := "advisory.md"; Submission.purpose := None;
         Submission.objectKey := "k/advisory" |};
      {| Submission.name := "bounty-submission.md"; Submission.purpose := None;
         Submission.objectKey := "k/submission" |} ]
|}.

Definition runningJob : Submission.Job := {|
  Submission.status := "RUNNING";
  Submission.runs := Submission.runs doneJob;
  Submission.artifacts := Submission.artifacts doneJob
|}.

Definition signAll (key : string) : option string :=
  Some ("https://r2.example/" ++ key).

(** A finished audit that recorded nothing. *)
Definition noLinksJob : Submission.Job := {|
  Submission.status := "SUCCEEDED";
  Submission.runs := None;
  Submission.artifacts := []
|}.

Definition noLinksBody : Submission.Body := {|
  Submission.ready := false;
  Submission.bodyPrUrl := None;
  Submission.bodyWriteupUrl := None;
  Submission.writeupGistUrl := None;
  Submission.writeupR2Url := None;
  Submission.bodyMessage := "Missing: PR link + writeup link"
|}.

(** A response body of 310 characters and its first 300. *)
Definition longBody : string :=
  Eval vm_compute in String.concat "" (repeat "rate-limit" 31).

Definition first300 : string :=
  Eval vm_compute in String.concat "" (repeat "rate-limit" 30).



(** * Properties *)

(** ** Configuration loader *)

Lemma safeInt_not_finite (env : Env) key fallback :
  Js.isFinite (envInt env key) = false -> safeInt env key fallback = fallback.
Proof.
  unfold safeInt. destruct (envInt env key); simpl; [reflexivity .. | discriminate].
Qed.

Lemma safeInt_finite (env : Env) key fallback z :
  envInt env key = Js.Fin z -> safeInt env key fallback = z.
Proof. unfold safeInt. intros ->. reflexivity. Qed.

Lemma cfgEntries_field (env : Env) key field dflt :
  In (key, field, dflt) cfgEntries -> field (POC_CFG env) = safeInt env key dflt.
Proof.
  unfold cfgEntries. simpl.
  intros H. repeat destruct H as [H | H]; try contradiction;
    injection H as <- <- <-; reflexivity.
Qed.

(** C5. A numeric setting whose integer parse is not finite (the variable is
    unset or empty, has no leading digits, or overflows to Infinity) resolves
    to the fallback of [safeInt], so every field of the configuration takes
    its documented default: maxTokens 4096, timeoutMs 120000, retries 2,
    concurrency 1, maxPocs 10, interRequestDelayMs 2000. *)
Theorem malformed_setting_resolves_to_default :
  forall (env : Env) key field dflt,
    In (key, field, dflt) cfgEntries ->
    Js.isFinite (envInt env key) = false ->
    field (POC_CFG env) = dflt
    /\ forall fallback, safeInt env key fallback = fallback.
Proof.
  intros env key field dflt Hin Hbad.
  rewrite (cfgEntries_field env _ _ _ Hin).
  split; [| intros fallback]; apply safeInt_not_finite; exact Hbad.
Qed.

Lemma malformed_setting_witness :
  retries (POC_CFG malformedEnv) = 2
  /\ forall fallback, safeInt malformedEnv "LLM_POC_RETRIES" fallback = fallback.
Proof.
  apply (malformed_setting_resolves_to_default malformedEnv "LLM_POC_RETRIES" retries 2).
  - simpl. right. right. left. reflexivity.
  - vm_compute. reflexivity.
Defined.

(** Inputs whose parse is not finite: no digits, a lone sign, white space,
    and a digit string beyond the range of a double. *)
Example parse_not_finite :
  Js.parseInt10 "abc" = Js.NaN /\ Js.parseInt10 "-" = Js.NaN
  /\ Js.parseInt10 "  " = Js.NaN
  /\ Js.parseInt10 (String.concat "" (repeat "9999999999" 31)) = Js.Inf false.
Proof. vm_compute. repeat split. Qed.

(** C10. When the integer parse of a setting is finite, [safeInt] returns
    it as it is: zero, negative numbers and the digit prefix of ["12abc"]
    pass through, so the loader enforces none of the range constraints
    (a concurrency of 0 and a negative retry count reach the
    configuration); only a parse that is not finite yields the default. *)
Theorem finite_setting_passes_through :
  (forall (env : Env) key fallback z,
      envInt env key = Js.Fin z -> safeInt env key fallback = z)
  /\ (forall (env : Env) key field dflt z,
      In (key, field, dflt) cfgEntries ->
      envInt env key = Js.Fin z -> field (POC_CFG env) = z)
  /\ (forall (env : Env) key fallback,
      safeInt env key fallback <> fallback -> Js.isFinite (envInt env key) = true)
  /\ Js.parseInt10 "12abc" = Js.Fin 12
  /\ Js.parseInt10 "0" = Js.Fin 0
  /\ Js.parseInt10 "-5" = Js.Fin (-5)
  /\ concurrency (POC_CFG (<["LLM_POC_CONCURRENCY" := "0"]> ∅)) = 0
  /\ retries (POC_CFG (<["LLM_POC_RETRIES" := "-5"]> ∅)) = -5
  /\ maxPocs (POC_CFG (<["LLM_POC_MAX" := "-1"]> ∅)) = -1
  /\ interRequestDelayMs (POC_CFG (<["LLM_POC_DELAY_MS" := "-2000ms"]> ∅)) = -2000.
Proof.
  split; [| split; [| split]].
  - intros env key fallback z H. apply safeInt_finite, H.
  - intros env key field dflt z Hin H.
    rewrite (cfgEntries_field env _ _ _ Hin). apply safeInt_finite, H.
  - intros env key fallback Hne.
    destruct (Js.isFinite (envInt env key)) eqn:E; [reflexivity |].
    exfalso. apply Hne, safeInt_not_finite, E.
  - vm_compute. repeat split.
Qed.

Lemma finite_setting_witness :
  safeInt prefixEnv "LLM_POC_RETRIES" 2 = 12
  /\ retries (POC_CFG prefixEnv) = 12
  /\ Js.isFinite (envInt prefixEnv "LLM_POC_RETRIES") = true.
Proof.
  pose proof finite_setting_passes_through as (Hsafe & Hfield & Honly & _).
  split; [| split].
  - apply (Hsafe prefixEnv "LLM_POC_RETRIES" 2 12). vm_compute. reflexivity.
  - apply (Hfield prefixEnv "LLM_POC_RETRIES" retries 2 12).
    + simpl. right. right. left. reflexivity.
    + vm_compute. reflexivity.
  - apply (Honly prefixEnv "LLM_POC_RETRIES" 2). vm_compute. discriminate.
Defined.

(** ** Provider resolution *)

Lemma getPocApiKey_credential (env : Env) :
  getPocApiKey env = Js.orElse (env !! credentialVar (resolvePocProvider env)) None.
Proof. unfold getPocApiKey. destruct (resolvePocProvider env); reflexivity. Qed.

Lemma getPocApiKey_none (env : Env) :
  Js.truthy (env !! credentialVar (resolvePocProvider env)) = false ->
  getPocApiKey env = None.
Proof.
  intros H. rewrite getPocApiKey_credential. unfold Js.orElse. rewrite H. reflexivity.
Qed.

Lemma getPocApiKey_some (env : Env) key :
  getPocApiKey env = Some key ->
  env !! credentialVar (resolvePocProvider env) = Some key /\ key <> "".
Proof.
  rewrite getPocApiKey_credential. unfold Js.orElse.
  destruct (env !! credentialVar (resolvePocProvider env)) as [[|c r]|]; simpl;
    intros H; try discriminate.
  injection H as <-. split; [reflexivity | discriminate].
Qed.

(** C4. A recognised override in POC_PROVIDER (kimi_code or moonshot, in
    any letter case) is the resolved provider; otherwise the provider is
    kimi_code exactly when KIMI_CODE_API_KEY is present, and moonshot if not.
    When the resolved provider has no credential, [callLLM] rejects with the
    key-not-set error without any fetch or sleep: the error is raised before
    the retry loop is entered. *)
Theorem provider_resolution_and_missing_key :
  forall (env : Env),
    let explicit := Js.toLowerCase <$> (env !! "POC_PROVIDER") in
    (explicit = Some "kimi_code" -> resolvePocProvider env = kimi_code)
    /\ (explicit = Some "moonshot" -> resolvePocProvider env = moonshot)
    /\ (explicit <> Some "kimi_code" -> explicit <> Some "moonshot" ->
        resolvePocProvider env =
          if Js.truthy (env !! "KIMI_CODE_API_KEY") then kimi_code else moonshot)
    /\ (Js.truthy (env !! credentialVar (resolvePocProvider env)) = false ->
        forall cfg net system user,
          callLLM env cfg net system user =
            (Rejected (KeyNotSet (apiNameOf (resolvePocProvider env))
                         (resolvePocProvider env)), [])).
Proof.
  intros env explicit. unfold resolvePocProvider. fold explicit.
  repeat split.
  - intros H. rewrite decide_True by exact H. reflexivity.
  - intros H. rewrite decide_False by (rewrite H; discriminate).
    rewrite decide_True by exact H. reflexivity.
  - intros H1 H2. rewrite !decide_False by assumption. reflexivity.
  - intros H cfg net system user. unfold callLLM.
    rewrite (getPocApiKey_none env H). reflexivity.
Qed.

Lemma provider_resolution_witness :
  resolvePocProvider overrideEnv = moonshot
  /\ resolvePocProvider kimiOverrideEnv = kimi_code
  /\ resolvePocProvider keyEnv = moonshot
  /\ callLLM overrideEnv (POC_CFG overrideEnv) (fun _ _ => completion "x") "s" "u"
     = (Rejected (KeyNotSet "Moonshot" moonshot), []).
Proof.
  pose proof (provider_resolution_and_missing_key overrideEnv) as (_ & Hm & _ & Hk).
  pose proof (provider_resolution_and_missing_key kimiOverrideEnv) as (Hc & _).
  pose proof (provider_resolution_and_missing_key keyEnv) as (_ & _ & Hauto & _).
  split; [| split; [| split]].
  - apply Hm. vm_compute. reflexivity.
  - apply Hc. vm_compute. reflexivity.
  - apply Hauto; vm_compute; discriminate.
  - apply (Hk eq_refl).
Defined.

(** C8. The endpoint is a function of the resolved provider alone. The
    model name is LLM_POC_MODEL when that is set (non-empty), else
    MOONSHOT_MODEL when that is set, else "kimi-k2.5"; it reads nothing
    else of the environment, so the override wins over the default
    whichever provider is resolved. *)
Theorem endpoint_and_model_resolution :
  forall (env : Env),
    (forall env' : Env,
        resolvePocProvider env' = resolvePocProvider env ->
        getPocApiUrl env' = getPocApiUrl env)
    /\ getPocApiUrl env =
         match resolvePocProvider env with
         | kimi_code => "https://api.kimi.com/coding/v1/chat/completions"
         | moonshot => "https://api.moonshot.ai/v1/chat/completions"
         end
    /\ (forall m, env !! "LLM_POC_MODEL" = Some m -> m <> "" -> getPocModel env = m)
    /\ (forall m, Js.truthy (env !! "LLM_POC_MODEL") = false ->
        env !! "MOONSHOT_MODEL" = Some m -> m <> "" -> getPocModel env = m)
    /\ (Js.truthy (env !! "LLM_POC_MODEL") = false ->
        Js.truthy (env !! "MOONSHOT_MODEL") = false ->
        getPocModel env = "kimi-k2.5")
    /\ (forall env' : Env,
        env' !! "LLM_POC_MODEL" = env !! "LLM_POC_MODEL" ->
        env' !! "MOONSHOT_MODEL" = env !! "MOONSHOT_MODEL" ->
        getPocModel env' = getPocModel env).
Proof.
  intros env. unfold getPocApiUrl, getPocModel, Js.orElse. repeat split.
  - intros env' ->. reflexivity.
  - intros m -> Hm. destruct m; [contradiction | reflexivity].
  - intros m -> -> Hm. destruct m; [contradiction | reflexivity].
  - intros -> ->. reflexivity.
  - intros env' -> ->. reflexivity.
Qed.

Lemma endpoint_and_model_witness :
  getPocModel modelEnv = "kimi-latest"
  /\ getPocApiUrl modelEnv = getPocApiUrl overrideEnv
  /\ getPocModel pocModelEnv = "kimi-k2-turbo"
  /\ getPocModel keyEnv = "kimi-k2.5"
  /\ getPocModel overrideEnv = getPocModel keyEnv.
Proof.
  pose proof (endpoint_and_model_resolution modelEnv) as (_ & _ & _ & Hm & _).
  pose proof (endpoint_and_model_resolution overrideEnv) as (Hu & _).
  pose proof (endpoint_and_model_resolution pocModelEnv) as (_ & _ & Hp & _).
  pose proof (endpoint_and_model_resolution keyEnv) as (_ & _ & _ & _ & Hd & Hsame).
  split; [| split; [| split; [| split]]].
  - apply Hm; [vm_compute; reflexivity | vm_compute; reflexivity | discriminate].
  - apply Hu. vm_compute. reflexivity.
  - apply Hp; [vm_compute; reflexivity | discriminate].
  - apply Hd; vm_compute; reflexivity.
  - apply Hsame; vm_compute; reflexivity.
Defined.

(** ** One pass of the retry loop *)

Lemma classify_backoff cfg apiName attempt maxTok res :
  backoffStatus (status res) = true ->
  classify cfg apiName attempt maxTok res =
    if Z.of_nat attempt <? retries cfg
    then Continue (backoffDelay attempt) maxTok
    else Throw (HttpError apiName (status res) (Js.sliceTo 300 (body res))).
Proof. intros H. unfold classify. rewrite H. reflexivity. Qed.

Lemma classify_400 cfg apiName attempt maxTok res :
  status res = 400 ->
  classify cfg apiName attempt maxTok res =
    let more := Z.of_nat attempt <? retries cfg in
    let lower := Js.toLowerCase (body res) in
    if hasTransient lower && more then Continue (backoffDelay attempt) maxTok
    else if hasTokenLimit lower && more && (2048 <? maxTok)
    then Continue 1000 (maxTok / 2)
    else Throw (Deterministic400 apiName (Js.sliceTo 300 (body res))).
Proof. intros H. unfold classify. rewrite H. reflexivity. Qed.

Lemma ok_status res :
  ok res = true -> backoffStatus (status res) = false /\ (status res =? 400) = false.
Proof.
  unfold ok, backoffStatus. intros H.
  apply andb_true_iff in H as [H1 H2].
  apply Z.leb_le in H1. apply Z.leb_le in H2.
  split.
  - apply orb_false_iff. split; [apply Z.eqb_neq | apply Z.leb_gt]; lia.
  - apply Z.eqb_neq. lia.
Qed.

Lemma classify_ok cfg apiName attempt maxTok res :
  ok res = true ->
  classify cfg apiName attempt maxTok res =
    if emptyContent (content res)
    then if Z.of_nat attempt <? retries cfg
         then Continue 1000 maxTok else Throw EmptyResponse
    else Return (default "" (content res)).
Proof.
  intros H. destruct (ok_status res H) as [H1 H2].
  unfold classify. rewrite H1, H2, H. reflexivity.
Qed.

Lemma emptyContent_text text :
  Js.isBlank text = false -> emptyContent (Some text) = false.
Proof.
  unfold emptyContent. intros H. simpl. rewrite H.
  destruct text; [discriminate H | reflexivity].
Qed.

(** [s.slice(0, n)] is the first [n] characters of [s], or all of it. *)
Lemma sliceTo_length_min n : forall s,
  String.length (Js.sliceTo n s) = Nat.min n (String.length s).
Proof.
  unfold Js.sliceTo. induction n as [|n IH]; intros [|c s]; simpl; try reflexivity.
  rewrite IH. reflexivity.
Qed.

Lemma sliceTo_length n s : (String.length (Js.sliceTo n s) <= n)%nat.
Proof. rewrite sliceTo_length_min. lia. Qed.

Lemma sliceTo_prefix n : forall s, String.prefix (Js.sliceTo n s) s = true.
Proof.
  unfold Js.sliceTo. induction n as [|n IH]; intros [|c s]; simpl; try reflexivity.
  destruct (ascii_dec c c) as [_ | Hne]; [apply IH | contradiction].
Qed.

(** The loop goes round again only while a retry is left. *)
Lemma classify_continue cfg apiName attempt maxTok res ms maxTok' :
  classify cfg apiName attempt maxTok res = Continue ms maxTok' ->
  Z.of_nat attempt < retries cfg.
Proof.
  unfold classify. intros H. apply Z.ltb_lt.
  destruct (Z.of_nat attempt <? retries cfg); [reflexivity |].
  rewrite !andb_false_r in H. simpl in H.
  repeat match type of H with
         | (if ?c then _ else _) = _ => destruct c
         end; discriminate.
Qed.

(** ** The loop *)

Section Loop.

Variable env : Env.
Variable cfg : PocCfg.
Variable net : nat -> Request -> Response.
Variables system user apiKey : string.

Local Abbreviation run := (attempts env cfg net system user apiKey).
Local Abbreviation req := (mkRequest env system user apiKey).
Local Abbreviation apiName := (apiNameOf (resolvePocProvider env)).
Local Abbreviation step a mt := (classify cfg apiName a mt (net a (req mt))).

Lemma attempts_return n a mt text :
  step a mt = Return text -> run (S n) a mt = (Resolved text, [Fetch (req mt)]).
Proof. intros H. simpl. rewrite H. reflexivity. Qed.

Lemma attempts_throw n a mt e :
  step a mt = Throw e -> run (S n) a mt = (Rejected e, [Fetch (req mt)]).
Proof. intros H. simpl. rewrite H. reflexivity. Qed.

Lemma attempts_continue n a mt ms mt' :
  step a mt = Continue ms mt' ->
  run (S n) a mt =
    (fst (run n (S a) mt'), Fetch (req mt) :: Sleep ms :: snd (run n (S a) mt')).
Proof.
  intros H. simpl. rewrite H.
  destruct (attempts env cfg net system user apiKey n (S a) mt'). reflexivity.
Qed.

(** Every pass starts with its fetch. *)
Lemma attempts_head n a mt :
  exists o tr, run (S n) a mt = (o, Fetch (req mt) :: tr).
Proof.
  destruct (step a mt) eqn:E.
  - rewrite (attempts_return _ _ _ _ E). eauto.
  - rewrite (attempts_continue _ _ _ _ _ E). eauto.
  - rewrite (attempts_throw _ _ _ _ E). eauto.
Qed.

(** The loop counter bounds the number of requests, whatever the replies. *)
Lemma attempts_fetches_bound n : forall a mt,
  (length (fetches (snd (run n a mt))) <= n)%nat.
Proof.
  induction n as [|n IH]; intros a mt; [simpl; lia |].
  destruct (step a mt) eqn:E.
  - rewrite (attempts_return _ _ _ _ E). simpl. lia.
  - rewrite (attempts_continue _ _ _ _ _ E). simpl.
    specialize (IH (S a) maxTokens'). lia.
  - rewrite (attempts_throw _ _ _ _ E). simpl. lia.
Qed.

(** [k] passes that each sleep and go round again with [maxTokens] as it was. *)
Lemma attempts_waits (d : nat -> Z) mt k : forall n a,
  (forall i, (a <= i < a + k)%nat -> step i mt = Continue (d i) mt) ->
  run (k + n) a mt =
    (fst (run n (a + k) mt),
     (flat_map (fun i => [Fetch (req mt); Sleep (d i)]) (seq a k)
       ++ snd (run n (a + k) mt))%list).
Proof.
  induction k as [|k IH]; intros n a H.
  - simpl. rewrite Nat.add_0_r.
    destruct (attempts env cfg net system user apiKey n a mt); reflexivity.
  - change (S k + n)%nat with (S (k + n)).
    rewrite (attempts_continue _ _ _ (d a) mt) by (apply H; lia).
    rewrite IH by (intros i Hi; apply H; lia).
    replace (S a + k)%nat with (a + S k)%nat by lia. reflexivity.
Qed.

(** With a retry count that is not negative the loop never runs out: the
    call resolves or rejects. *)
Lemma attempts_settles n : forall a mt,
  Z.of_nat a + Z.of_nat n = retries cfg + 1 -> (0 < n)%nat ->
  fst (run n a mt) <> FellThrough.
Proof.
  induction n as [|n IH]; intros a mt Hn Hpos; [lia |].
  destruct (step a mt) eqn:E.
  - rewrite (attempts_return _ _ _ _ E). discriminate.
  - rewrite (attempts_continue _ _ _ _ _ E). simpl.
    apply classify_continue in E. apply IH; lia.
  - rewrite (attempts_throw _ _ _ _ E). discriminate.
Qed.

End Loop.

Lemma fetches_waits (r : Request) (d : nat -> Z) l tail :
  fetches (flat_map (fun i => [Fetch r; Sleep (d i)]) l ++ tail)%list
  = (repeat r (length l) ++ fetches tail)%list.
Proof.
  induction l as [|x l IH]; [reflexivity |].
  simpl. f_equal. exact IH.
Qed.

Lemma sleeps_waits (r : Request) (d : nat -> Z) l tail :
  sleeps (flat_map (fun i => [Fetch r; Sleep (d i)]) l ++ tail)%list
  = (map d l ++ sleeps tail)%list.
Proof.
  induction l as [|x l IH]; [reflexivity |].
  simpl. f_equal. exact IH.
Qed.

Lemma callLLM_with_key env cfg net system user apiKey (R : nat) :
  getPocApiKey env = Some apiKey ->
  retries cfg = Z.of_nat R ->
  callLLM env cfg net system user =
    attempts env cfg net system user apiKey (R + 1) 0 (maxTokens cfg).
Proof.
  intros Hk HR. unfold callLLM. rewrite Hk, HR.
  replace (Z.to_nat (Z.of_nat R + 1)) with (R + 1)%nat by lia. reflexivity.
Qed.

Lemma callLLM_fetches_bound env cfg net system user :
  (length (fetches (snd (callLLM env cfg net system user)))
   <= Z.to_nat (retries cfg + 1))%nat.
Proof.
  unfold callLLM. destruct (getPocApiKey env).
  - apply attempts_fetches_bound.
  - simpl. lia.
Qed.

Lemma callLLM_settles (env : Env) cfg net system user :
  0 <= retries cfg -> fst (callLLM env cfg net system user) <> FellThrough.
Proof.
  intros Hr. unfold callLLM. destruct (getPocApiKey env); [| discriminate].
  apply attempts_settles; lia.
Qed.

(** A negative retry count, which [safeInt] lets through, skips the loop. *)
Lemma callLLM_negative_retries (env : Env) cfg net system user apiKey :
  getPocApiKey env = Some apiKey -> retries cfg < 0 ->
  callLLM env cfg net system user = (FellThrough, []).
Proof.
  intros Hk Hr. unfold callLLM. rewrite Hk.
  replace (Z.to_nat (retries cfg + 1)) with 0%nat by lia. reflexivity.
Qed.

Lemma backoffStatus_true st :
  st = 429 \/ 500 <= st -> backoffStatus st = true.
Proof.
  unfold backoffStatus. intros [-> | H]; [reflexivity |].
  apply orb_true_iff. right. apply Z.leb_le, H.
Qed.

Lemma more_true (cfg : PocCfg) (R i : nat) :
  retries cfg = Z.of_nat R -> (i < R)%nat -> (Z.of_nat i <? retries cfg) = true.
Proof. intros -> H. apply Z.ltb_lt. lia. Qed.

Lemma more_false (cfg : PocCfg) (i : nat) :
  retries cfg <= Z.of_nat i -> (Z.of_nat i <? retries cfg) = false.
Proof. intros H. apply Z.ltb_ge, H. Qed.

(** ** Backoff on 429 and 5xx *)

(** C3. A reply with status 429 or at least 500 makes the loop sleep
    3000 * 2^attempt ms and go round again while attempt < retries. With
    such replies on the first [retries] attempts and a completion on the
    next, [callLLM] resolves with its text after retries + 1 requests; when
    the reply to the last attempt is again 429 or 5xx, the call is rejected
    with the status and the body cut to its first 300 characters: a prefix
    of the body of length min(300, length of the body). *)
Theorem backoff_on_429_and_5xx :
  forall (env : Env) cfg net system user apiKey (R : nat),
    getPocApiKey env = Some apiKey ->
    retries cfg = Z.of_nat R ->
    let req := mkRequest env system user apiKey (maxTokens cfg) in
    let last := net R req in
    let waits :=
      flat_map (fun i => [Fetch req; Sleep (3000 * 2 ^ Z.of_nat i)]) (seq 0 R) in
    (forall i, (i < R)%nat -> status (net i req) = 429 \/ 500 <= status (net i req)) ->
    (forall text,
        ok last = true -> content last = Some text -> Js.isBlank text = false ->
        callLLM env cfg net system user
        = (Resolved text, (waits ++ [Fetch req])%list))
    /\ (status last = 429 \/ 500 <= status last ->
        callLLM env cfg net system user
        = (Rejected (HttpError (apiNameOf (resolvePocProvider env)) (status last)
                       (Js.sliceTo 300 (body last))),
           (waits ++ [Fetch req])%list))
    /\ length (fetches (waits ++ [Fetch req])%list) = S R
    /\ sleeps (waits ++ [Fetch req])%list
       = map (fun i => 3000 * 2 ^ Z.of_nat i) (seq 0 R)
    /\ (forall apiName attempt maxTok res,
        status res = 429 \/ 500 <= status res ->
        classify cfg apiName attempt maxTok res
        = if Z.of_nat attempt <? retries cfg
          then Continue (3000 * 2 ^ Z.of_nat attempt) maxTok
          else Throw (HttpError apiName (status res) (Js.sliceTo 300 (body res))))
    /\ (forall text,
        String.length (Js.sliceTo 300 text) = Nat.min 300 (String.length text)
        /\ String.prefix (Js.sliceTo 300 text) text = true).
Proof.
  intros env cfg net system user apiKey R Hkey HR req last waits Hbusy.
  assert (Hrun : forall o,
    attempts env cfg net system user apiKey 1 R (maxTokens cfg) = (o, [Fetch req]) ->
    callLLM env cfg net system user = (o, (waits ++ [Fetch req])%list)).
  { intros o Ho.
    rewrite (callLLM_with_key _ _ _ _ _ _ _ Hkey HR).
    rewrite (attempts_waits env cfg net system user apiKey backoffDelay).
    - simpl Nat.add. rewrite Ho. reflexivity.
    - intros i Hi. rewrite classify_backoff by (apply backoffStatus_true, Hbusy; lia).
      rewrite (more_true cfg R i HR) by lia. reflexivity. }
  repeat split.
  - intros text Hok Hc Hb. apply Hrun, attempts_return.
    rewrite classify_ok by exact Hok. fold req last.
    rewrite Hc, (emptyContent_text _ Hb). reflexivity.
  - intros Hst. apply Hrun, attempts_throw.
    rewrite classify_backoff by (apply backoffStatus_true, Hst).
    rewrite more_false by lia. reflexivity.
  - unfold waits. rewrite fetches_waits, length_app, repeat_length, length_seq.
    simpl. lia.
  - unfold waits. rewrite sleeps_waits. simpl. apply app_nil_r.
  - intros apiName attempt maxTok res Hst.
    apply classify_backoff, backoffStatus_true, Hst.
  - apply sliceTo_length_min.
  - apply sliceTo_prefix.
Qed.

Lemma backoff_on_429_witness :
  callLLM keyEnv (POC_CFG keyEnv) busyTwice "sys" "usr"
  = (Resolved "it('drains the vault')",
     [Fetch keyReq; Sleep 3000; Fetch keyReq; Sleep 6000; Fetch keyReq])
  /\ callLLM keyEnv (POC_CFG keyEnv) (fun _ _ => http 429 longBody) "sys" "usr"
     = (Rejected (HttpError "Moonshot" 429 first300),
        [Fetch keyReq; Sleep 3000; Fetch keyReq; Sleep 6000; Fetch keyReq])
  /\ String.length longBody = 310%nat
  /\ String.length first300 = 300%nat
  /\ classify (POC_CFG keyEnv) "Moonshot" 1 4096 (http 502 "bad gateway")
     = Continue 6000 4096.
Proof.
  split; [| split; [| split; [| split]]].
  - refine (proj1 (backoff_on_429_and_5xx keyEnv (POC_CFG keyEnv) busyTwice
                     "sys" "usr" "sk-moon" 2 _ _ _) _ _ _ _).
    + vm_compute. reflexivity.
    + vm_compute. reflexivity.
    + intros [|[|i]] Hi; [left; reflexivity | right; vm_compute; discriminate | lia].
    + vm_compute. reflexivity.
    + vm_compute. reflexivity.
    + vm_compute. reflexivity.
  - refine (proj1 (proj2 (backoff_on_429_and_5xx keyEnv (POC_CFG keyEnv)
                            (fun _ _ => http 429 longBody)
                            "sys" "usr" "sk-moon" 2 _ _ _)) _).
    + vm_compute. reflexivity.
    + vm_compute. reflexivity.
    + intros i Hi. left. reflexivity.
    + left. reflexivity.
  - vm_compute. reflexivity.
  - vm_compute. reflexivity.
  - refine (proj1 (proj2 (proj2 (proj2 (proj2
              (backoff_on_429_and_5xx keyEnv (POC_CFG keyEnv) busyTwice
                 "sys" "usr" "sk-moon" 2 _ _ _)))))
              "Moonshot" 1%nat 4096 (http 502 "bad gateway") _).
    + vm_compute. reflexivity.
    + vm_compute. reflexivity.
    + intros [|[|i]] Hi; [left; reflexivity | right; vm_compute; discriminate | lia].
    + right. vm_compute. discriminate.
Defined.

(** ** Markers in the body of a 400 *)

Lemma toLowerCase_app a b :
  Js.toLowerCase (a ++ b) = Js.toLowerCase a ++ Js.toLowerCase b.
Proof. induction a as [|c a IH]; simpl; [reflexivity | rewrite IH; reflexivity]. Qed.

Lemma prefix_app m b : String.prefix m (m ++ b) = true.
Proof.
  induction m as [|c m IH]; simpl.
  - destruct b; reflexivity.
  - destruct (ascii_dec c c) as [_ | Hne]; [exact IH | contradiction].
Qed.

Lemma includes_prefix s t : String.prefix t s = true -> Js.includes s t = true.
Proof. intros H. destruct s; cbn [Js.includes]; rewrite H; reflexivity. Qed.

Lemma includes_app a m b : Js.includes (a ++ m ++ b) m = true.
Proof.
  induction a as [|c a IH].
  - change ("" ++ m ++ b) with (m ++ b). apply includes_prefix, prefix_app.
  - change ((String c a) ++ m ++ b) with (String c (a ++ m ++ b)).
    cbn [Js.includes]. rewrite IH. apply orb_true_r.
Qed.

Lemma hasTransient_marker lower marker :
  In marker transient -> Js.includes lower marker = true -> hasTransient lower = true.
Proof.
  intros Hin Hinc. unfold hasTransient. apply existsb_exists.
  exists marker. split; assumption.
Qed.

Lemma callLLM_enters_loop (env : Env) cfg net system user apiKey :
  getPocApiKey env = Some apiKey ->
  0 <= retries cfg ->
  callLLM env cfg net system user =
    attempts env cfg net system user apiKey (S (Z.to_nat (retries cfg))) 0
      (maxTokens cfg).
Proof.
  intros Hk Hr.
  rewrite (callLLM_with_key _ _ _ _ _ _ (Z.to_nat (retries cfg)) Hk) by lia.
  rewrite Nat.add_1_r. reflexivity.
Qed.

(** C1. On a 400 the lower-cased body decides. With a transient marker
    ("rate limit", "overloaded", "try again", "temporarily", "throttl", in
    any letter case) and attempt < retries the loop sleeps 3000 * 2^attempt ms
    and sends the request again. With neither a transient nor a token-limit
    marker the pass throws the deterministic-400 error at once, whatever the
    attempt: when that is the first reply, [callLLM] is rejected after a
    single request and no sleep. *)
Theorem http_400_transient_or_deterministic :
  (forall cfg apiName attempt maxTok res,
      status res = 400 ->
      hasTransient (Js.toLowerCase (body res)) = true ->
      Z.of_nat attempt < retries cfg ->
      classify cfg apiName attempt maxTok res
      = Continue (3000 * 2 ^ Z.of_nat attempt) maxTok)
  /\ (forall cfg apiName attempt maxTok res,
      status res = 400 ->
      hasTransient (Js.toLowerCase (body res)) = false ->
      hasTokenLimit (Js.toLowerCase (body res)) = false ->
      classify cfg apiName attempt maxTok res
      = Throw (Deterministic400 apiName (Js.sliceTo 300 (body res))))
  /\ (forall (env : Env) cfg net system user apiKey,
      getPocApiKey env = Some apiKey ->
      0 <= retries cfg ->
      let req := mkRequest env system user apiKey (maxTokens cfg) in
      status (net 0%nat req) = 400 ->
      hasTransient (Js.toLowerCase (body (net 0%nat req))) = false ->
      hasTokenLimit (Js.toLowerCase (body (net 0%nat req))) = false ->
      callLLM env cfg net system user
      = (Rejected (Deterministic400 (apiNameOf (resolvePocProvider env))
                     (Js.sliceTo 300 (body (net 0%nat req)))),
         [Fetch req]))
  /\ (forall (env : Env) cfg net system user apiKey,
      getPocApiKey env = Some apiKey ->
      0 < retries cfg ->
      let req := mkRequest env system user apiKey (maxTokens cfg) in
      status (net 0%nat req) = 400 ->
      hasTransient (Js.toLowerCase (body (net 0%nat req))) = true ->
      exists o tr,
        callLLM env cfg net system user
        = (o, Fetch req :: Sleep 3000 :: Fetch req :: tr))
  /\ (forall pre mid post marker,
      In marker transient -> Js.toLowerCase mid = marker ->
      hasTransient (Js.toLowerCase (pre ++ mid ++ post)) = true)
  /\ hasTransient (Js.toLowerCase "rate limit exceeded") = true
  /\ hasTransient (Js.toLowerCase "invalid model") = false
  /\ hasTokenLimit (Js.toLowerCase "invalid model") = false.
Proof.
  assert (Hdet : forall cfg apiName attempt maxTok res,
      status res = 400 ->
      hasTransient (Js.toLowerCase (body res)) = false ->
      hasTokenLimit (Js.toLowerCase (body res)) = false ->
      classify cfg apiName attempt maxTok res
      = Throw (Deterministic400 apiName (Js.sliceTo 300 (body res)))).
  { intros cfg apiName attempt maxTok res H400 Ht Hl.
    rewrite classify_400 by exact H400. cbv zeta. rewrite Ht, Hl. reflexivity. }
  assert (Htr : forall cfg apiName attempt maxTok res,
      status res = 400 ->
      hasTransient (Js.toLowerCase (body res)) = true ->
      Z.of_nat attempt < retries cfg ->
      classify cfg apiName attempt maxTok res
      = Continue (backoffDelay attempt) maxTok).
  { intros cfg apiName attempt maxTok res H400 Ht Hmore.
    rewrite classify_400 by exact H400. cbv zeta. rewrite Ht.
    apply Z.ltb_lt in Hmore. rewrite Hmore. reflexivity. }
  split; [exact Htr |]. split; [exact Hdet |]. split; [| split; [| split]].
  - intros env cfg net system user apiKey Hk Hr req H400 Ht Hl.
    rewrite (callLLM_enters_loop _ _ _ _ _ _ Hk Hr).
    apply attempts_throw, Hdet; assumption.
  - intros env cfg net system user apiKey Hk Hr req H400 Ht.
    rewrite (callLLM_enters_loop _ _ _ _ _ _ Hk) by lia.
    destruct (Z.to_nat (retries cfg)) as [|n] eqn:En; [lia |].
    rewrite (attempts_continue _ _ _ _ _ _ _ _ _ (backoffDelay 0) (maxTokens cfg))
      by (apply Htr; [exact H400 | exact Ht | simpl; lia]).
    destruct (attempts_head env cfg net system user apiKey n 1 (maxTokens cfg))
      as (o & tr & E).
    exists o, tr. fold req in E. rewrite E. reflexivity.
  - intros pre mid post marker Hin Hmid.
    apply (hasTransient_marker _ marker Hin).
    rewrite !toLowerCase_app, Hmid. apply includes_app.
  - vm_compute. repeat split.
Qed.

Lemma http_400_witness :
  callLLM keyEnv (POC_CFG keyEnv) (fun _ _ => http 400 "invalid model") "sys" "usr"
  = (Rejected (Deterministic400 "Moonshot" "invalid model"), [Fetch keyReq])
  /\ (exists o tr,
       callLLM keyEnv (POC_CFG keyEnv)
         (fun _ _ => http 400 "Rate limit exceeded") "sys" "usr"
       = (o, Fetch keyReq :: Sleep 3000 :: Fetch keyReq :: tr))
  /\ classify (POC_CFG keyEnv) "Moonshot" 1 4096 (http 400 "Server OVERLOADED")
     = Continue (3000 * 2 ^ 1) 4096
  /\ classify (POC_CFG keyEnv) "Moonshot" 1 4096 (http 400 "invalid model")
     = Throw (Deterministic400 "Moonshot" "invalid model")
  /\ hasTransient (Js.toLowerCase ("HTTP 400: " ++ "Rate Limit" ++ " exceeded")) = true.
Proof.
  pose proof http_400_transient_or_deterministic
    as (Hgo & Hstop & Hfast & Hretry & Hcase & _).
  split; [| split; [| split; [| split]]].
  - refine (Hfast keyEnv (POC_CFG keyEnv) _ "sys" "usr" "sk-moon" _ _ _ _ _).
    + vm_compute. reflexivity.
    + vm_compute. discriminate.
    + reflexivity.
    + vm_compute. reflexivity.
    + vm_compute. reflexivity.
  - refine (Hretry keyEnv (POC_CFG keyEnv) _ "sys" "usr" "sk-moon" _ _ _ _).
    + vm_compute. reflexivity.
    + vm_compute. reflexivity.
    + reflexivity.
    + vm_compute. reflexivity.
  - apply (Hgo (POC_CFG keyEnv) "Moonshot" 1%nat 4096 (http 400 "Server OVERLOADED")).
    + reflexivity.
    + vm_compute. reflexivity.
    + vm_compute. reflexivity.
  - apply (Hstop (POC_CFG keyEnv) "Moonshot" 1%nat 4096 (http 400 "invalid model")).
    + reflexivity.
    + vm_compute. reflexivity.
    + vm_compute. reflexivity.
  - apply (Hcase "HTTP 400: " "Rate Limit" " exceeded" "rate limit").
    + simpl. left. reflexivity.
    + vm_compute. reflexivity.
Defined.

(** ** Token-limit downshift *)

Lemma hasTokenLimit_marker lower marker :
  In marker ["max_tokens"; "context length"; "too many tokens"] ->
  Js.includes lower marker = true -> hasTokenLimit lower = true.
Proof.
  unfold hasTokenLimit. simpl.
  intros [<- | [<- | [<- | []]]] ->; rewrite ?orb_true_r; reflexivity.
Qed.

(** C2, as the code has it. A 400 whose lower-cased body has a token-limit
    marker ("max_tokens", "context length", "too many tokens") and no
    transient marker halves the working maxTokens (rounding down) when it is
    above 2048 and attempt < retries, sleeps 1000 ms and sends the request
    again with the halved value: from 4096 the second request carries 2048.
    When maxTokens is 2048 or less, or when no retry is left, the pass throws
    the deterministic-400 error. The number of requests never exceeds
    retries + 1. *)
Theorem token_limit_downshift :
  (forall cfg apiName attempt maxTok res,
      status res = 400 ->
      hasTokenLimit (Js.toLowerCase (body res)) = true ->
      hasTransient (Js.toLowerCase (body res)) = false ->
      Z.of_nat attempt < retries cfg ->
      2048 < maxTok ->
      classify cfg apiName attempt maxTok res = Continue 1000 (maxTok / 2))
  /\ (forall cfg apiName attempt maxTok res,
      status res = 400 ->
      hasTransient (Js.toLowerCase (body res)) = false ->
      maxTok <= 2048 ->
      classify cfg apiName attempt maxTok res
      = Throw (Deterministic400 apiName (Js.sliceTo 300 (body res))))
  /\ (forall cfg apiName attempt maxTok res,
      status res = 400 ->
      retries cfg <= Z.of_nat attempt ->
      classify cfg apiName attempt maxTok res
      = Throw (Deterministic400 apiName (Js.sliceTo 300 (body res))))
  /\ (forall (env : Env) cfg net system user,
      (length (fetches (snd (callLLM env cfg net system user)))
       <= Z.to_nat (retries cfg + 1))%nat)
  /\ (forall (env : Env) cfg net system user apiKey,
      getPocApiKey env = Some apiKey ->
      0 < retries cfg ->
      2048 < maxTokens cfg ->
      let req := mkRequest env system user apiKey in
      let first := net 0%nat (req (maxTokens cfg)) in
      status first = 400 ->
      hasTokenLimit (Js.toLowerCase (body first)) = true ->
      hasTransient (Js.toLowerCase (body first)) = false ->
      exists o tr,
        callLLM env cfg net system user
        = (o, Fetch (req (maxTokens cfg)) :: Sleep 1000
              :: Fetch (req (maxTokens cfg / 2)) :: tr))
  /\ (forall pre mid post marker,
      In marker ["max_tokens"; "context length"; "too many tokens"] ->
      Js.toLowerCase mid = marker ->
      hasTokenLimit (Js.toLowerCase (pre ++ mid ++ post)) = true)
  /\ hasTokenLimit (Js.toLowerCase "maximum context length exceeded") = true
  /\ hasTransient (Js.toLowerCase "maximum context length exceeded") = false
  /\ 4096 / 2 = 2048.
Proof.
  assert (Hhalf : forall cfg apiName attempt maxTok res,
      status res = 400 ->
      hasTokenLimit (Js.toLowerCase (body res)) = true ->
      hasTransient (Js.toLowerCase (body res)) = false ->
      Z.of_nat attempt < retries cfg ->
      2048 < maxTok ->
      classify cfg apiName attempt maxTok res = Continue 1000 (maxTok / 2)).
  { intros cfg apiName attempt maxTok res H400 Hl Ht Hmore Hbig.
    rewrite classify_400 by exact H400. cbv zeta. rewrite Ht, Hl.
    apply Z.ltb_lt in Hmore, Hbig. rewrite Hmore, Hbig. reflexivity. }
  split; [exact Hhalf |]. repeat split.
  - intros cfg apiName attempt maxTok res H400 Ht Hsmall.
    rewrite classify_400 by exact H400. cbv zeta. rewrite Ht.
    replace (2048 <? maxTok) with false by (symmetry; apply Z.ltb_ge, Hsmall).
    rewrite andb_false_r. reflexivity.
  - intros cfg apiName attempt maxTok res H400 Hdone.
    rewrite classify_400 by exact H400. cbv zeta.
    rewrite (more_false cfg attempt Hdone), !andb_false_r. reflexivity.
  - intros. apply callLLM_fetches_bound.
  - intros env cfg net system user apiKey Hk Hr Hbig req first H400 Hl Ht.
    rewrite (callLLM_enters_loop _ _ _ _ _ _ Hk) by lia.
    destruct (Z.to_nat (retries cfg)) as [|n] eqn:En; [lia |].
    rewrite (attempts_continue _ _ _ _ _ _ _ _ _ 1000 (maxTokens cfg / 2))
      by (apply Hhalf; [exact H400 | exact Hl | exact Ht | simpl; lia | exact Hbig]).
    destruct (attempts_head env cfg net system user apiKey n 1 (maxTokens cfg / 2))
      as (o & tr & E).
    exists o, tr. rewrite E. reflexivity.
  - intros pre mid post marker Hin Hmid.
    apply (hasTokenLimit_marker _ marker Hin).
    rewrite !toLowerCase_app, Hmid. apply includes_app.
Qed.

Lemma token_limit_downshift_witness :
  (exists o tr,
    callLLM keyEnv (POC_CFG keyEnv)
      (fun _ _ => http 400 "maximum context length exceeded") "sys" "usr"
    = (o, Fetch keyReq :: Sleep 1000
          :: Fetch (mkRequest keyEnv "sys" "usr" "sk-moon" (4096 / 2)) :: tr))
  /\ classify (POC_CFG keyEnv) "Moonshot" 0 8192 (http 400 "Too many tokens")
     = Continue 1000 (8192 / 2)
  /\ classify (POC_CFG keyEnv) "Moonshot" 1 2048 (http 400 "Too many tokens")
     = Throw (Deterministic400 "Moonshot" "Too many tokens")
  /\ classify (POC_CFG keyEnv) "Moonshot" 2 4096 (http 400 "Too many tokens")
     = Throw (Deterministic400 "Moonshot" "Too many tokens")
  /\ hasTokenLimit (Js.toLowerCase ("param " ++ "MAX_TOKENS" ++ " is too large")) = true.
Proof.
  pose proof token_limit_downshift
    as (Hhalf & Hfloor & Hdone & _ & Hsecond & Hcase & _).
  split; [| split; [| split; [| split]]].
  - refine (Hsecond keyEnv (POC_CFG keyEnv) _ "sys" "usr" "sk-moon" _ _ _ _ _ _).
    + vm_compute. reflexivity.
    + vm_compute. reflexivity.
    + vm_compute. reflexivity.
    + reflexivity.
    + vm_compute. reflexivity.
    + vm_compute. reflexivity.
  - apply (Hhalf (POC_CFG keyEnv) "Moonshot" 0%nat 8192 (http 400 "Too many tokens")).
    + reflexivity.
    + vm_compute. reflexivity.
    + vm_compute. reflexivity.
    + vm_compute. reflexivity.
    + lia.
  - apply (Hfloor (POC_CFG keyEnv) "Moonshot" 1%nat 2048 (http 400 "Too many tokens")).
    + reflexivity.
    + vm_compute. reflexivity.
    + lia.
  - apply (Hdone (POC_CFG keyEnv) "Moonshot" 2%nat 4096 (http 400 "Too many tokens")).
    + reflexivity.
    + vm_compute. discriminate.
  - apply (Hcase "param " "MAX_TOKENS" " is too large" "max_tokens").
    + simpl. left. reflexivity.
    + vm_compute. reflexivity.
Defined.

(** A 400 whose body has both a transient and a token-limit marker, with
    retries left and maxTokens at 4096: the transient test comes first, so
    the loop backs off and every request carries 4096; nothing is halved. *)
Lemma token_limit_downshift_counterexample :
  status bothMarkers = 400
  /\ hasTokenLimit (Js.toLowerCase (body bothMarkers)) = true
  /\ classify (POC_CFG keyEnv) "Moonshot" 0 4096 bothMarkers = Continue 3000 4096
  /\ map req_max_tokens
       (fetches (snd (callLLM keyEnv (POC_CFG keyEnv) (fun _ _ => bothMarkers)
                        "sys" "usr")))
     = [4096; 4096; 4096]
  /\ sleeps (snd (callLLM keyEnv (POC_CFG keyEnv) (fun _ _ => bothMarkers)
                    "sys" "usr"))
     = [3000; 6000].
Proof. vm_compute. repeat split. Qed.

(** ** Empty completions *)

(** C6, as the code has it. A 2xx reply whose text is missing, empty or
    only white space makes the loop sleep a fixed 1000 ms and go round again
    while attempt < retries: with retries = R and every reply empty there
    are R + 1 requests, not two, before the call is rejected with "Empty
    response after retries". The passes are those of the one loop counter:
    after [retries] backoffs an empty reply is rejected without a further
    request. *)
Theorem empty_completion_retry :
  (forall cfg apiName attempt maxTok res,
      ok res = true -> emptyContent (content res) = true ->
      Z.of_nat attempt < retries cfg ->
      classify cfg apiName attempt maxTok res = Continue 1000 maxTok)
  /\ (forall cfg apiName attempt maxTok res,
      ok res = true -> emptyContent (content res) = true ->
      retries cfg <= Z.of_nat attempt ->
      classify cfg apiName attempt maxTok res = Throw EmptyResponse)
  /\ (forall (env : Env) cfg net system user apiKey (R : nat),
      getPocApiKey env = Some apiKey ->
      retries cfg = Z.of_nat R ->
      let req := mkRequest env system user apiKey (maxTokens cfg) in
      (forall i, (i <= R)%nat ->
         ok (net i req) = true /\ emptyContent (content (net i req)) = true) ->
      callLLM env cfg net system user
      = (Rejected EmptyResponse,
         (flat_map (fun _ => [Fetch req; Sleep 1000]) (seq 0 R) ++ [Fetch req])%list))
  /\ (forall (env : Env) cfg net system user apiKey (R : nat),
      getPocApiKey env = Some apiKey ->
      retries cfg = Z.of_nat R ->
      let req := mkRequest env system user apiKey (maxTokens cfg) in
      (forall i, (i < R)%nat -> backoffStatus (status (net i req)) = true) ->
      ok (net R req) = true -> emptyContent (content (net R req)) = true ->
      callLLM env cfg net system user
      = (Rejected EmptyResponse,
         (flat_map (fun i => [Fetch req; Sleep (3000 * 2 ^ Z.of_nat i)]) (seq 0 R)
            ++ [Fetch req])%list))
  /\ (forall text, emptyContent (Some text) = Js.isBlank text)
  /\ emptyContent None = true
  /\ emptyContent (Some "") = true
  /\ emptyContent (Some "   ") = true
  /\ errorMessage EmptyResponse = "Empty response after retries".
Proof.
  assert (Hgo : forall cfg apiName attempt maxTok res,
      ok res = true -> emptyContent (content res) = true ->
      Z.of_nat attempt < retries cfg ->
      classify cfg apiName attempt maxTok res = Continue 1000 maxTok).
  { intros cfg apiName attempt maxTok res Hok He Hmore.
    rewrite classify_ok by exact Hok. rewrite He.
    apply Z.ltb_lt in Hmore. rewrite Hmore. reflexivity. }
  assert (Hstop : forall cfg apiName attempt maxTok res,
      ok res = true -> emptyContent (content res) = true ->
      retries cfg <= Z.of_nat attempt ->
      classify cfg apiName attempt maxTok res = Throw EmptyResponse).
  { intros cfg apiName attempt maxTok res Hok He Hdone.
    rewrite classify_ok by exact Hok. rewrite He.
    rewrite (more_false cfg attempt Hdone). reflexivity. }
  split; [exact Hgo |]. split; [exact Hstop |]. split; [| split; [| split]].
  - intros env cfg net system user apiKey R Hk HR req Hall.
    rewrite (callLLM_with_key _ _ _ _ _ _ _ Hk HR).
    rewrite (attempts_waits env cfg net system user apiKey (fun _ => 1000)).
    + simpl Nat.add.
      rewrite (attempts_throw env cfg net system user apiKey 0 R _ EmptyResponse).
      * reflexivity.
      * apply Hstop; [apply Hall; lia | apply Hall; lia | lia].
    + intros i Hi. apply Hgo; [apply Hall; lia | apply Hall; lia | lia].
  - intros env cfg net system user apiKey R Hk HR req Hbusy Hok He.
    rewrite (callLLM_with_key _ _ _ _ _ _ _ Hk HR).
    rewrite (attempts_waits env cfg net system user apiKey backoffDelay).
    + simpl Nat.add.
      rewrite (attempts_throw env cfg net system user apiKey 0 R _ EmptyResponse).
      * reflexivity.
      * apply Hstop; [exact Hok | exact He | lia].
    + intros i Hi. rewrite classify_backoff by (apply Hbusy; lia).
      rewrite (more_true cfg R i HR) by lia. reflexivity.
  - intros text. unfold emptyContent. simpl.
    destruct text; reflexivity.
  - vm_compute. repeat split.
Qed.

Lemma empty_completion_witness :
  callLLM keyEnv (POC_CFG keyEnv) busyThenEmpty "sys" "usr"
  = (Rejected EmptyResponse,
     [Fetch keyReq; Sleep 3000; Fetch keyReq; Sleep 6000; Fetch keyReq])
  /\ callLLM keyEnv (POC_CFG keyEnv) (fun _ _ => completion "") "sys" "usr"
     = (Rejected EmptyResponse,
        [Fetch keyReq; Sleep 1000; Fetch keyReq; Sleep 1000; Fetch keyReq])
  /\ classify (POC_CFG keyEnv) "Moonshot" 1 4096 (completion "  ")
     = Continue 1000 4096
  /\ classify (POC_CFG keyEnv) "Moonshot" 2 4096 (completion "  ")
     = Throw EmptyResponse.
Proof.
  pose proof empty_completion_retry as (Hgo & Hstop & Hall & Hshared & _).
  split; [| split; [| split]].
  - refine (Hshared keyEnv (POC_CFG keyEnv) busyThenEmpty "sys" "usr" "sk-moon"
              2%nat _ _ _ _ _).
    + vm_compute. reflexivity.
    + vm_compute. reflexivity.
    + intros [|[|i]] Hi; [reflexivity | reflexivity | lia].
    + vm_compute. reflexivity.
    + vm_compute. reflexivity.
  - refine (Hall keyEnv (POC_CFG keyEnv) (fun _ _ => completion "") "sys" "usr"
              "sk-moon" 2%nat _ _ _).
    + vm_compute. reflexivity.
    + vm_compute. reflexivity.
    + intros i Hi. split; reflexivity.
  - apply (Hgo (POC_CFG keyEnv) "Moonshot" 1%nat 4096 (completion "  "));
      vm_compute; reflexivity.
  - apply (Hstop (POC_CFG keyEnv) "Moonshot" 2%nat 4096 (completion "  "));
      [reflexivity | reflexivity | vm_compute; discriminate].
Defined.

(** With the default retries = 2 and a provider that only ever answers with
    white space, the empty reply is retried twice: three requests and two
    sleeps of 1000 ms, where one extra attempt would make two requests. *)
Lemma empty_completion_counterexample :
  retries (POC_CFG keyEnv) = 2
  /\ callLLM keyEnv (POC_CFG keyEnv) (fun _ _ => completion "   ") "sys" "usr"
     = (Rejected EmptyResponse,
        [Fetch keyReq; Sleep 1000; Fetch keyReq; Sleep 1000; Fetch keyReq])
  /\ length (fetches (snd (callLLM keyEnv (POC_CFG keyEnv)
                             (fun _ _ => completion "   ") "sys" "usr")))
     <> 2%nat.
Proof. vm_compute. repeat split. discriminate. Qed.

(** ** The dispatcher's clock *)

Section Timeline.

Context {T A : Type}.
Variable cfg : PocCfg.
Variable gen : nat -> T -> Work A.
Variable sleepTakes : Z -> Z.
(** A timer does not fire early, and time does not run backwards. *)
Hypothesis sleep_lasts : forall ms, 0 <= sleepTakes ms /\ ms <= sleepTakes ms.
Hypothesis work_lasts : forall i f, 0 <= took (gen i f).

Local Abbreviation sched := (schedule cfg gen sleepTakes).
Local Abbreviation cooldownAt i :=
  (if (0 <? i)%nat then Some (interRequestDelayMs cfg) else None).

Lemma schedule_length items : forall lanes idx,
  length (sched lanes idx items) = length items.
Proof.
  induction items as [|f rest IH]; intros lanes idx; simpl; [reflexivity |].
  rewrite IH. reflexivity.
Qed.

(** Where the cooldowns go depends on the index alone. *)
Lemma schedule_slept items : forall lanes idx,
  map slept (sched lanes idx items)
  = map (fun i => cooldownAt i) (seq idx (length items)).
Proof.
  induction items as [|f rest IH]; intros lanes idx; simpl; [reflexivity |].
  rewrite IH. reflexivity.
Qed.

Lemma schedule_outcome items : forall lanes idx N s f,
  sched lanes idx items !! N = Some s -> items !! N = Some f ->
  outcome s = result (gen (idx + N) f).
Proof.
  induction items as [|g rest IH]; intros lanes idx N s f Hs Hf; [discriminate |].
  destruct N as [|N]; simpl in Hs, Hf.
  - injection Hs as <-. injection Hf as <-. rewrite Nat.add_0_r. reflexivity.
  - rewrite <- Nat.add_succ_comm. eapply IH; eassumption.
Qed.

Lemma earliest_le lanes x : In x lanes -> earliest lanes <= x.
Proof.
  unfold earliest. generalize (hd 0 lanes) as d.
  induction lanes as [|y l IH]; intros d [].
  - subst. simpl. lia.
  - simpl. specialize (IH d H). lia.
Qed.

Lemma earliest_In lanes : lanes <> [] -> In (earliest lanes) lanes.
Proof.
  destruct lanes as [|h l]; [congruence | intros _].
  unfold earliest. simpl hd.
  assert (H : forall l' d, In d (h :: l) -> incl l' (h :: l) ->
            In (fold_right Z.min d l') (h :: l)).
  { induction l' as [|y l' IH]; intros d Hd Hl; [exact Hd |].
    simpl. destruct (Z.min_spec y (fold_right Z.min d l')) as [[_ ->] | [_ ->]].
    - apply Hl. left. reflexivity.
    - apply IH; [exact Hd |]. intros z Hz. apply Hl. right. exact Hz. }
  apply H; [left; reflexivity | apply incl_refl].
Qed.

Lemma occupy_In lanes from till x :
  In x (occupy lanes from till) -> x = till \/ In x lanes.
Proof.
  induction lanes as [|y l IH]; simpl; [contradiction |].
  destruct (y =? from).
  - intros [<- | H]; [left; reflexivity | right; right; exact H].
  - intros [<- | H]; [right; left; reflexivity |].
    destruct (IH H) as [-> | H']; [left; reflexivity | right; right; exact H'].
Qed.

Lemma occupy_nil lanes from till : occupy lanes from till = [] -> lanes = [].
Proof. destruct lanes as [|y l]; [reflexivity |]. simpl. destruct (y =? from); discriminate. Qed.

(** Taking the earliest lane until a later time does not bring the next
    admission forward. *)
Lemma earliest_occupy lanes till :
  earliest lanes <= till ->
  earliest lanes <= earliest (occupy lanes (earliest lanes) till).
Proof.
  intros Htill.
  destruct (occupy lanes (earliest lanes) till) as [|z l'] eqn:E.
  - apply occupy_nil in E. subst. reflexivity.
  - rewrite <- E.
    assert (Hne : occupy lanes (earliest lanes) till <> []) by (rewrite E; discriminate).
    destruct (occupy_In _ _ _ _ (earliest_In _ Hne)) as [-> | Hin].
    + exact Htill.
    + apply earliest_le, Hin.
Qed.

Lemma schedule_consecutive items : forall lanes idx N a b,
  sched lanes idx items !! N = Some a ->
  sched lanes idx items !! S N = Some b ->
  admitted a <= admitted b
  /\ issued b = admitted b + sleepTakes (interRequestDelayMs cfg).
Proof.
  induction items as [|f rest IH]; intros lanes idx N a b Ha Hb; [discriminate |].
  destruct N as [|N].
  - destruct rest as [|g rest']; [discriminate |].
    simpl in Ha, Hb. injection Ha as <-. injection Hb as <-. simpl.
    split; [| reflexivity].
    apply earliest_occupy.
    pose proof (work_lasts idx f).
    destruct (0 <? idx)%nat; [pose proof (sleep_lasts (interRequestDelayMs cfg)) |]; lia.
  - simpl in Ha, Hb. eapply IH; eassumption.
Qed.

(** With a single lane the next item is admitted when the previous one is done. *)
Lemma schedule_single items : forall t idx N a b,
  sched [t] idx items !! N = Some a ->
  sched [t] idx items !! S N = Some b ->
  admitted b = finished a.
Proof.
  assert (He : forall t, earliest [t] = t) by (intros t; unfold earliest; simpl; lia).
  induction items as [|f rest IH]; intros t idx N a b Ha Hb; [discriminate |].
  cbn [schedule] in Ha, Hb. rewrite He in Ha, Hb.
  cbn [occupy] in Ha, Hb. rewrite Z.eqb_refl in Ha, Hb.
  destruct N as [|N].
  - destruct rest as [|g rest']; [discriminate |].
    cbn [schedule] in Hb. rewrite He in Hb.
    simpl in Ha, Hb. injection Ha as <-. injection Hb as <-. reflexivity.
  - simpl in Ha, Hb. eapply IH; eassumption.
Qed.

End Timeline.

(** C7. In a dispatched batch the task of every item but the first sleeps
    interRequestDelayMs before its work, and which items sleep depends on
    their index alone, not on what earlier items resolved to. Tasks are
    admitted in order, so the request of item N+1 is issued no earlier than
    interRequestDelayMs after item N is admitted; with concurrency = 1 item
    N+1 is admitted only when item N is done, so its request also comes no
    earlier than the delay after that. With the defaults the delay is 2000. *)
Theorem cooldown_before_all_but_first :
  forall (T A : Type) cfg (gen : nat -> T -> Work A) (sleepTakes : Z -> Z)
         (items : list T) (timeline : list (Slot A)),
    (forall ms, 0 <= sleepTakes ms /\ ms <= sleepTakes ms) ->
    (forall i f, 0 <= took (gen i f)) ->
    dispatch cfg gen sleepTakes items = Some timeline ->
    length timeline = length items
    /\ map slept timeline
       = map (fun i => if (0 <? i)%nat then Some (interRequestDelayMs cfg) else None)
           (seq 0 (length items))
    /\ (forall (gen' : nat -> T -> Work A) timeline',
        dispatch cfg gen' sleepTakes items = Some timeline' ->
        map slept timeline' = map slept timeline)
    /\ (forall N a b,
        timeline !! N = Some a -> timeline !! S N = Some b ->
        admitted a + interRequestDelayMs cfg <= issued b)
    /\ (concurrency cfg = 1 ->
        forall N a b,
          timeline !! N = Some a -> timeline !! S N = Some b ->
          finished a + interRequestDelayMs cfg <= issued b).
Proof.
  intros T A cfg gen sleepTakes items timeline Hsleep Hwork Hd.
  unfold dispatch in Hd.
  destruct (1 <=? concurrency cfg) eqn:Hc; [| discriminate].
  injection Hd as <-.
  split; [apply schedule_length |].
  split; [apply schedule_slept |].
  split; [| split].
  - intros gen' timeline' Hd'. unfold dispatch in Hd'. rewrite Hc in Hd'.
    injection Hd' as <-. rewrite !schedule_slept. reflexivity.
  - intros N a b Ha Hb.
    destruct (schedule_consecutive cfg gen sleepTakes Hsleep Hwork _ _ _ _ _ _ Ha Hb)
      as [Hadm ->].
    pose proof (Hsleep (interRequestDelayMs cfg)). lia.
  - intros Hone N a b Ha Hb. rewrite Hone in Ha, Hb. simpl in Ha, Hb.
    destruct (schedule_consecutive cfg gen sleepTakes Hsleep Hwork _ _ _ _ _ _ Ha Hb)
      as [_ ->].
    rewrite (schedule_single cfg gen sleepTakes _ _ _ _ _ _ Ha Hb).
    pose proof (Hsleep (interRequestDelayMs cfg)). lia.
Qed.

Lemma cooldown_witness :
  map slept threeSlots = [None; Some 2000; Some 2000]
  /\ (forall N a b,
        threeSlots !! N = Some a -> threeSlots !! S N = Some b ->
        admitted a + 2000 <= issued b)
  /\ (forall N a b,
        threeSlots !! N = Some a -> threeSlots !! S N = Some b ->
        finished a + 2000 <= issued b)
  /\ map slept allFailSlots = map slept threeSlots.
Proof.
  assert (Hd : dispatch (POC_CFG keyEnv) flaky (Z.max 0) threeFindings = Some threeSlots)
    by (vm_compute; reflexivity).
  assert (Hs : forall ms, 0 <= Z.max 0 ms /\ ms <= Z.max 0 ms) by (intros ms; lia).
  assert (Hw : forall i (f : Finding), 0 <= took (flaky i f))
    by (intros i f; unfold flaky; destruct (i =? 1)%nat; simpl; lia).
  pose proof (cooldown_before_all_but_first Finding bool (POC_CFG keyEnv) flaky
                (Z.max 0) threeFindings threeSlots Hs Hw Hd)
    as (_ & Hslept & Hany & Ht & Hseq).
  split; [exact Hslept |]. split; [exact Ht |]. split.
  - apply Hseq. vm_compute. reflexivity.
  - apply (Hany (fun _ _ => {| took := 100; result := false |})).
    vm_compute. reflexivity.
Defined.

(** ** The grep token *)

Lemma append_assoc (a b c : string) : (a ++ b) ++ c = a ++ b ++ c.
Proof.
  induction a as [|x a IH]; [reflexivity |].
  change (String x ((a ++ b) ++ c) = String x (a ++ b ++ c)).
  rewrite IH. reflexivity.
Qed.

(** * Further properties *)

(** ** [replace_in] *)

Lemma length_append (a b : string) :
  String.length (a ++ b) = (String.length a + String.length b)%nat.
Proof.
  induction a as [|c a IH]; [reflexivity |].
  change (String c a ++ b) with (String c (a ++ b)). simpl. rewrite IH. reflexivity.
Qed.

Lemma append_nil_r (a : string) : a ++ "" = a.
Proof.
  induction a as [|c a IH]; [reflexivity |].
  change (String c a ++ "") with (String c (a ++ "")). rewrite IH. reflexivity.
Qed.

Lemma append_cons c (a b : string) : String c a ++ b = String c (a ++ b).
Proof. reflexivity. Qed.

Lemma prefix_cons a s c t :
  String.prefix (String a s) (String c t) = true <-> a = c /\ String.prefix s t = true.
Proof.
  simpl. destruct (ascii_dec a c) as [-> | Hne].
  - split; [intros H; split; [reflexivity | exact H] | intros [_ H]; exact H].
  - split; [discriminate | intros [H _]; contradiction].
Qed.

Lemma prefix_split old s :
  String.prefix old s = true -> s = old ++ Py.drop (String.length old) s.
Proof.
  revert s. induction old as [|a old IH]; intros s H.
  - destruct s; reflexivity.
  - destruct s as [|c s]; [discriminate |].
    apply prefix_cons in H as [-> H].
    rewrite append_cons. simpl. f_equal. apply IH, H.
Qed.

Lemma drop_app old post : Py.drop (String.length old) (old ++ post) = post.
Proof.
  induction old as [|a old IH]; [destruct post; reflexivity |].
  rewrite append_cons. simpl. exact IH.
Qed.

Lemma prefix_shorter old x post :
  String.prefix old (x ++ post) = true ->
  (String.length old <= String.length x)%nat ->
  String.prefix old x = true.
Proof.
  revert x. induction old as [|a old IH]; intros x H Hlen.
  - destruct x; reflexivity.
  - destruct x as [|c x]; [simpl in Hlen; lia |].
    rewrite append_cons in H. apply prefix_cons in H as [-> H].
    apply prefix_cons. split; [reflexivity |].
    apply IH; [exact H | simpl in Hlen; lia].
Qed.

Lemma isIn_occurs old content :
  Py.isIn old content = true <-> exists pre post, content = pre ++ old ++ post.
Proof.
  split.
  - induction content as [|c r IH]; cbn [Py.isIn]; intros H.
    + rewrite orb_false_r in H. exists "", (Py.drop (String.length old) "").
      apply prefix_split, H.
    + apply orb_true_iff in H as [H | H].
      * exists "", (Py.drop (String.length old) (String c r)).
        apply prefix_split, H.
      * destruct (IH H) as (pre & post & ->).
        exists (String c pre), post. reflexivity.
  - intros (pre & post & ->). induction pre as [|c pre IH].
    + change ("" ++ old ++ post) with (old ++ post).
      destruct (old ++ post) eqn:E; cbn [Py.isIn]; rewrite <- E, prefix_app;
        reflexivity.
    + rewrite append_cons. cbn [Py.isIn]. rewrite IH. apply orb_true_r.
Qed.

Lemma firstOccurrence_tail c pre old :
  firstOccurrence (String c pre) old -> firstOccurrence pre old.
Proof.
  intros H a b E. apply (H (String c a) b).
  rewrite !append_cons, E. reflexivity.
Qed.

Lemma firstOccurrence_no_prefix c pre old post :
  firstOccurrence (String c pre) old ->
  String.prefix old (String c pre ++ old ++ post) = false.
Proof.
  intros H. destruct (String.prefix old (String c pre ++ old ++ post)) eqn:E;
    [| reflexivity].
  exfalso.
  rewrite <- append_assoc in E.
  apply prefix_shorter in E; [| rewrite length_append; lia].
  apply prefix_split in E.
  specialize (H "" _ E).
  apply (f_equal String.length) in E.
  rewrite H, append_nil_r, length_append in E. simpl in E. lia.
Qed.

Lemma replace1_first pre old new post :
  firstOccurrence pre old ->
  Py.replace1 (pre ++ old ++ post) old new = pre ++ new ++ post.
Proof.
  induction pre as [|c pre IH]; intros H.
  - change ("" ++ old ++ post) with (old ++ post).
    change ("" ++ new ++ post) with (new ++ post).
    destruct (old ++ post) eqn:E; cbn [Py.replace1]; rewrite <- E, prefix_app,
      drop_app; reflexivity.
  - pose proof (firstOccurrence_no_prefix c pre old post H) as Hno.
    rewrite append_cons in Hno |- *. cbn [Py.replace1]. rewrite Hno.
    rewrite IH by (eapply firstOccurrence_tail, H). reflexivity.
Qed.

Lemma find_le a old b :
  exists k, Py.find (a ++ old ++ b) old = Some k /\ (k <= String.length a)%nat.
Proof.
  induction a as [|c a (k & Hk & Hle)].
  - change ("" ++ old ++ b) with (old ++ b). exists 0%nat.
    split; [| simpl; lia].
    destruct (old ++ b) eqn:E; cbn [Py.find]; rewrite <- E, prefix_app; reflexivity.
  - rewrite append_cons. cbn [Py.find].
    destruct (String.prefix old (String c (a ++ old ++ b))).
    + exists 0%nat. split; [reflexivity | lia].
    + exists (S k). rewrite Hk. split; [reflexivity | simpl; lia].
Qed.

(** A test of [firstOccurrence] that computes. *)
Lemma firstOccurrence_find pre old :
  Py.find (pre ++ old) old = Some (String.length pre) -> firstOccurrence pre old.
Proof.
  intros Hfind a b E.
  destruct (find_le a old b) as (k & Hk & Hle).
  rewrite <- E, Hfind in Hk. injection Hk as <-.
  apply (f_equal String.length) in E. rewrite !length_append in E.
  destruct b; [reflexivity | simpl in E; lia].
Qed.

(** X1. When the file holds no occurrence of [old], [replace_in] returns
    False and writes nothing; when the file is missing the call raises. *)
Theorem replace_in_without_match :
  forall (fs : Files) path old new,
    (forall content,
        fs !! path = Some content ->
        (forall pre post, content <> pre ++ old ++ post) ->
        replace_in fs path old new = Returned fs false)
    /\ (fs !! path = None ->
        replace_in fs path old new = FileNotFoundError path).
Proof.
  intros fs path old new. unfold replace_in. split.
  - intros content -> Hno.
    destruct (Py.isIn old content) eqn:E; [| reflexivity].
    apply isIn_occurs in E as (pre & post & ->). destruct (Hno pre post eq_refl).
  - intros ->. reflexivity.
Qed.

Lemma replace_in_without_match_witness :
  replace_in twoFiles "a.ts" "getApiKey()" "getPocApiKey()"
  = Returned twoFiles false
  /\ replace_in twoFiles "c.ts" "x" "y" = FileNotFoundError "c.ts".
Proof.
  pose proof (replace_in_without_match twoFiles "a.ts" "getApiKey()" "getPocApiKey()")
    as [Hno _].
  pose proof (replace_in_without_match twoFiles "c.ts" "x" "y") as [_ Hmiss].
  split.
  - apply (Hno "const k = 1; const k = 1;"); [reflexivity |].
    intros pre post E.
    assert (H : Py.isIn "getApiKey()" "const k = 1; const k = 1;" = true)
      by (apply isIn_occurs; exists pre, post; exact E).
    vm_compute in H. discriminate H.
  - apply Hmiss. reflexivity.
Defined.

(** X2. When [old] occurs in the file, [replace_in] returns True, puts
    [new] in place of the leftmost occurrence only, and leaves every other
    file as it was. *)
Theorem replace_in_leftmost_only :
  forall (fs : Files) path old new pre post,
    fs !! path = Some (pre ++ old ++ post) ->
    firstOccurrence pre old ->
    exists fs',
      replace_in fs path old new = Returned fs' true
      /\ fs' !! path = Some (pre ++ new ++ post)
      /\ forall other, other <> path -> fs' !! other = fs !! other.
Proof.
  intros fs path old new pre post Hfile Hfirst.
  exists (<[path := pre ++ new ++ post]> fs). unfold replace_in. rewrite Hfile.
  replace (Py.isIn old (pre ++ old ++ post)) with true
    by (symmetry; apply isIn_occurs; eauto).
  rewrite replace1_first by exact Hfirst.
  split; [reflexivity |]. split; [apply lookup_insert_eq |].
  intros other Hne. apply lookup_insert_ne. congruence.
Qed.

Lemma replace_in_leftmost_only_witness :
  exists fs',
    replace_in twoFiles "a.ts" "const k = 1;" "let k = 2;" = Returned fs' true
    /\ fs' !! "a.ts" = Some ("" ++ "let k = 2;" ++ " const k = 1;")
    /\ forall other, other <> "a.ts" -> fs' !! other = twoFiles !! other.
Proof.
  apply (replace_in_leftmost_only twoFiles "a.ts" "const k = 1;" "let k = 2;"
           "" " const k = 1;").
  - reflexivity.
  - apply firstOccurrence_find. vm_compute. reflexivity.
Defined.

(** X3. A replacement whose [new] starts with [old] is found again on a
    second run: running such a step twice inserts the added text twice. *)
Theorem replace_in_twice_inserts_twice :
  forall (fs : Files) path old extra pre post,
    fs !! path = Some (pre ++ old ++ post) ->
    firstOccurrence pre old ->
    runSteps fs [(path, old, old ++ extra); (path, old, old ++ extra)]
    = Returned (<[path := pre ++ old ++ extra ++ extra ++ post]> fs) true.
Proof.
  intros fs path old extra pre post Hfile Hfirst.
  destruct (replace_in_leftmost_only fs path old (old ++ extra) pre post Hfile Hfirst)
    as (fs1 & Hrun1 & Hfile1 & _).
  assert (Efs1 : fs1 = <[path := pre ++ (old ++ extra) ++ post]> fs).
  { unfold replace_in in Hrun1. rewrite Hfile in Hrun1.
    destruct (negb (Py.isIn old (pre ++ old ++ post))); [discriminate |].
    injection Hrun1 as <-. rewrite replace1_first by exact Hfirst. reflexivity. }
  rewrite append_assoc in Hfile1.
  destruct (replace_in_leftmost_only fs1 path old (old ++ extra) pre (extra ++ post)
              Hfile1 Hfirst) as (fs2 & Hrun2 & _ & _).
  cbn [runSteps]. rewrite Hrun1.
  unfold replace_in in Hrun2 |- *. rewrite Hfile1 in Hrun2 |- *.
  destruct (negb (Py.isIn old (pre ++ old ++ extra ++ post))); [discriminate |].
  rewrite replace1_first by exact Hfirst.
  rewrite Efs1, insert_insert_eq, !append_assoc. reflexivity.
Qed.

Lemma replace_in_twice_witness :
  runSteps twoFiles [("b.ts", "prUrl: null,", "prUrl: null," ++ " writeupUrl: null,");
                     ("b.ts", "prUrl: null,", "prUrl: null," ++ " writeupUrl: null,")]
  = Returned
      (<["b.ts" := "doc: null, " ++ "prUrl: null," ++ " writeupUrl: null,"
                   ++ " writeupUrl: null," ++ " }"]> twoFiles) true.
Proof.
  apply (replace_in_twice_inserts_twice twoFiles "b.ts" "prUrl: null,"
           " writeupUrl: null," "doc: null, " " }").
  - reflexivity.
  - apply firstOccurrence_find. vm_compute. reflexivity.
Defined.

Lemma replace_in_dom (fs : Files) path old new fs' value :
  replace_in fs path old new = Returned fs' value -> dom fs' = dom fs.
Proof.
  unfold replace_in. destruct (fs !! path) as [content|] eqn:E; [| discriminate].
  destruct (negb (Py.isIn old content)); intros ?; simplify_eq.
  - reflexivity.
  - rewrite dom_insert_L.
    apply subseteq_union_1_L, singleton_subseteq_l, elem_of_dom. eauto.
Qed.

(** X4. A script whose files all exist runs to its end, whether or not its
    patterns are found, and neither adds nor removes a file; a missing file
    raises at the first step that opens it. *)
Theorem runSteps_completes :
  forall steps (fs : Files),
    (Forall (fun step => is_Some (fs !! step.1.1)) steps ->
     exists fs', runSteps fs steps = Returned fs' true /\ dom fs' = dom fs)
    /\ (forall done path old new rest,
        steps = (done ++ (path, old, new) :: rest)%list ->
        Forall (fun step => is_Some (fs !! step.1.1)) done ->
        fs !! path = None ->
        runSteps fs steps = FileNotFoundError path).
Proof.
  induction steps as [|[[path old] new] steps IH]; intros fs; split.
  - intros _. exists fs. split; reflexivity.
  - intros [|? ?] ? ? ? ? E; discriminate E.
  - intros Hall. apply Forall_cons in Hall as [[content Hc] Hrest].
    cbn [runSteps]. destruct (replace_in fs path old new) as [p | fs1 v] eqn:E.
    + unfold replace_in in E. simpl in Hc. rewrite Hc in E.
      destruct (negb (Py.isIn old content)); discriminate.
    + pose proof (replace_in_dom _ _ _ _ _ _ E) as Hdom.
      destruct (proj1 (IH fs1)) as (fs' & Hrun & Hdom').
      * eapply Forall_impl; [exact Hrest |]. intros step Hs. simpl in Hs |- *.
        apply elem_of_dom. rewrite Hdom. apply elem_of_dom, Hs.
      * exists fs'. split; [exact Hrun | congruence].
  - intros done p o n rest E Hdone Hmiss. destruct done as [|d done].
    + simpl in E. injection E as -> -> -> ->.
      cbn [runSteps]. unfold replace_in. rewrite Hmiss. reflexivity.
    + simpl in E. injection E as <- ->.
      apply Forall_cons in Hdone as [[content Hc] Hdone]. simpl in Hc.
      cbn [runSteps]. destruct (replace_in fs path old new) as [q | fs1 v] eqn:E.
      * unfold replace_in in E. rewrite Hc in E.
        destruct (negb (Py.isIn old content)); discriminate.
      * pose proof (replace_in_dom _ _ _ _ _ _ E) as Hdom.
        apply (proj2 (IH fs1) done p o n rest eq_refl).
        -- eapply Forall_impl; [exact Hdone |]. intros step Hs. simpl in Hs |- *.
           apply elem_of_dom. rewrite Hdom. apply elem_of_dom, Hs.
        -- apply not_elem_of_dom. rewrite Hdom. apply not_elem_of_dom, Hmiss.
Qed.

Lemma runSteps_completes_witness :
  (exists fs',
     runSteps twoFiles [("a.ts", "nothing", "x"); ("b.ts", "doc", "text")]
     = Returned fs' true /\ dom fs' = dom twoFiles)
  /\ runSteps twoFiles [("a.ts", "const", "let"); ("c.ts", "x", "y"); ("b.ts", "x", "y")]
     = FileNotFoundError "c.ts".
Proof.
  split.
  - apply (proj1 (runSteps_completes _ twoFiles)).
    repeat constructor; vm_compute; eauto.
  - apply (proj2 (runSteps_completes _ twoFiles) [("a.ts", "const", "let")]
             "c.ts" "x" "y" [("b.ts", "x", "y")]).
    + reflexivity.
    + repeat constructor. vm_compute. eauto.
    + vm_compute. reflexivity.
Defined.

(** ** The loader before and after the NaN guard *)

(** X5. [safeInt] is [int] with the results that are not finite replaced
    by the fallback: the two agree whenever [int] yields a finite number,
    and [int] is not finite only for a variable that is set to text that
    does not parse, which [int] hands on and [safeInt] does not. *)
Theorem safeInt_guards_int :
  forall (env : Env) key fallback,
    (forall z, Gen.int env key fallback = Js.Fin z -> safeInt env key fallback = z)
    /\ (Js.isFinite (Gen.int env key fallback) = false ->
        safeInt env key fallback = fallback
        /\ Gen.int env key fallback = envInt env key
        /\ Js.truthy (env !! key) = true).
Proof.
  intros env key fallback. unfold Gen.int, safeInt, envInt.
  destruct (Js.truthy (env !! key)); split.
  - intros z ->. reflexivity.
  - intros H. destruct (Js.parseInt10 (default "" (env !! key)));
      [auto | auto | discriminate].
  - intros z [= <-]. reflexivity.
  - discriminate.
Qed.

Lemma safeInt_guards_int_witness :
  safeInt prefixEnv "LLM_POC_RETRIES" 2 = 12
  /\ safeInt malformedEnv "LLM_POC_RETRIES" 2 = 2
  /\ Gen.int malformedEnv "LLM_POC_RETRIES" 2 = envInt malformedEnv "LLM_POC_RETRIES"
  /\ Js.truthy (malformedEnv !! "LLM_POC_RETRIES") = true.
Proof.
  split.
  - apply (proj1 (safeInt_guards_int prefixEnv "LLM_POC_RETRIES" 2)).
    vm_compute. reflexivity.
  - apply (proj2 (safeInt_guards_int malformedEnv "LLM_POC_RETRIES" 2)).
    vm_compute. reflexivity.
Defined.

Example int_hands_on_NaN : Gen.int malformedEnv "LLM_POC_RETRIES" 2 = Js.NaN.
Proof. vm_compute. reflexivity. Qed.

(** ** Decimal text read back by [parseInt] *)

Lemma digits_acc (d : Decimal.uint) : forall count acc,
  Js.digits (NilEmpty.string_of_uint d) count (Z.pos acc)
  = ((count + Decimal.nb_digits d)%nat, Z.pos (Pos.of_uint_acc d acc)).
Proof.
  induction d; intros count acc;
    cbn [NilEmpty.string_of_uint Js.digits Pos.of_uint_acc Decimal.nb_digits];
    [rewrite Nat.add_0_r; reflexivity | ..];
    change (Js.isDigit _) with true; cbv iota;
    match goal with
    | |- Js.digits _ _ (_ + Js.digitVal ?c) = (_, Z.pos (Pos.of_uint_acc _ ?a)) =>
        let v := eval vm_compute in (Js.digitVal c) in
        change (Js.digitVal c) with v;
        replace (10 * Z.pos acc + v) with (Z.pos a) by lia
    end;
    rewrite IHd; f_equal; lia.
Qed.

Lemma digits_uint (d : Decimal.uint) : forall count,
  Js.digits (NilEmpty.string_of_uint d) count 0
  = ((count + Decimal.nb_digits d)%nat, Z.of_N (Pos.of_uint d)).
Proof.
  induction d; intros count;
    cbn [NilEmpty.string_of_uint Js.digits Pos.of_uint Decimal.nb_digits];
    try (change (Js.isDigit _) with true; cbv iota).
  - rewrite Nat.add_0_r. reflexivity.
  - change (10 * 0 + Js.digitVal "0") with 0. rewrite IHd. f_equal. lia.
  - change (10 * 0 + Js.digitVal "1") with (Z.pos 1). rewrite digits_acc. f_equal; lia.
  - change (10 * 0 + Js.digitVal "2") with (Z.pos 2). rewrite digits_acc. f_equal; lia.
  - change (10 * 0 + Js.digitVal "3") with (Z.pos 3). rewrite digits_acc. f_equal; lia.
  - change (10 * 0 + Js.digitVal "4") with (Z.pos 4). rewrite digits_acc. f_equal; lia.
  - change (10 * 0 + Js.digitVal "5") with (Z.pos 5). rewrite digits_acc. f_equal; lia.
  - change (10 * 0 + Js.digitVal "6") with (Z.pos 6). rewrite digits_acc. f_equal; lia.
  - change (10 * 0 + Js.digitVal "7") with (Z.pos 7). rewrite digits_acc. f_equal; lia.
  - change (10 * 0 + Js.digitVal "8") with (Z.pos 8). rewrite digits_acc. f_equal; lia.
  - change (10 * 0 + Js.digitVal "9") with (Z.pos 9). rewrite digits_acc. f_equal; lia.
Qed.

Lemma toNumber_small negative m :
  0 <= m < 2 ^ 53 ->
  Js.toNumber negative m = Js.Fin ((if negative then -1 else 1) * m).
Proof.
  intros [Hlo Hhi]. unfold Js.toNumber.
  destruct (m =? 0) eqn:E; [reflexivity |].
  apply Z.eqb_neq in E.
  assert (Hlog : Z.log2 m < 53) by (apply Z.log2_lt_pow2; lia).
  replace (Z.log2 m + 1 <=? 53) with true by (symmetry; apply Z.leb_le; lia).
  reflexivity.
Qed.

Lemma parseInt10_unsigned c r :
  Js.isDigit c = true ->
  Js.parseInt10 (String c r)
  = match Js.digits (String c r) 0 0 with
    | (O, _) => Js.NaN
    | (_, m) => Js.toNumber false m
    end.
Proof.
  destruct c as [[] [] [] [] [] [] [] []]; intros H; try discriminate H; reflexivity.
Qed.

Lemma parseInt10_negative s :
  Js.parseInt10 (String "-" s)
  = match Js.digits s 0 0 with
    | (O, _) => Js.NaN
    | (_, m) => Js.toNumber true m
    end.
Proof. reflexivity. Qed.

Lemma uint_text (d : Decimal.uint) :
  d <> Decimal.Nil ->
  exists c r, NilEmpty.string_of_uint d = String c r /\ Js.isDigit c = true
              /\ NilZero.string_of_uint d = NilEmpty.string_of_uint d
              /\ (0 < Decimal.nb_digits d)%nat.
Proof.
  destruct d; [congruence | ..]; intros _; simpl;
    eexists _, _; (split; [reflexivity | split; [reflexivity | split; [reflexivity | lia]]]).
Qed.

Lemma digits_positive p :
  exists n, Js.digits (NilEmpty.string_of_uint (Pos.to_uint p)) 0 0 = (S n, Z.pos p).
Proof.
  destruct (uint_text _ (DecimalPos.Unsigned.to_uint_nonnil p)) as (_ & _ & _ & _ & _ & Hn).
  rewrite digits_uint, DecimalPos.Unsigned.of_to. simpl Nat.add.
  destruct (Decimal.nb_digits (Pos.to_uint p)) as [|n]; [lia |].
  exists n. reflexivity.
Qed.

(** X6. [parseInt] reads back every integer of magnitude below 2^53 from
    its decimal text, so a setting written that way is the value [safeInt]
    returns, whatever the fallback. *)
Theorem safeInt_reads_decimal :
  forall (env : Env) key fallback z,
    - 2 ^ 53 < z < 2 ^ 53 ->
    Js.parseInt10 (showZ z) = Js.Fin z
    /\ safeInt (<[key := showZ z]> env) key fallback = z.
Proof.
  intros env key fallback z Hz.
  assert (Hparse : Js.parseInt10 (showZ z) = Js.Fin z).
  { unfold showZ. destruct z as [|p|p]; [reflexivity | |].
    - cbn [Z.to_int NilZero.string_of_int].
      destruct (uint_text _ (DecimalPos.Unsigned.to_uint_nonnil p))
        as (c & r & E & Hc & -> & _).
      destruct (digits_positive p) as (n & Hd).
      rewrite E in Hd |- *. rewrite (parseInt10_unsigned c r Hc), Hd.
      rewrite toNumber_small by lia. f_equal; lia.
    - cbn [Z.to_int NilZero.string_of_int].
      destruct (uint_text _ (DecimalPos.Unsigned.to_uint_nonnil p))
        as (_ & _ & _ & _ & -> & _).
      destruct (digits_positive p) as (n & Hd).
      rewrite parseInt10_negative, Hd.
      rewrite toNumber_small by lia. f_equal; lia. }
  split; [exact Hparse |].
  unfold safeInt, envInt. rewrite lookup_insert_eq.
  replace (Js.truthy (Some (showZ z))) with true.
  - simpl default. rewrite Hparse. reflexivity.
  - unfold showZ. destruct z as [|p|p]; [reflexivity | |];
      cbn [Z.to_int NilZero.string_of_int]; [| reflexivity].
    destruct (uint_text _ (DecimalPos.Unsigned.to_uint_nonnil p))
      as (c & r & E & _ & -> & _).
    rewrite E. reflexivity.
Qed.

Lemma safeInt_reads_decimal_witness :
  Js.parseInt10 (showZ (-120000)) = Js.Fin (-120000)
  /\ safeInt (<["LLM_POC_TIMEOUT_MS" := showZ (-120000)]> keyEnv)
       "LLM_POC_TIMEOUT_MS" 120000 = -120000.
Proof.
  apply (safeInt_reads_decimal keyEnv "LLM_POC_TIMEOUT_MS" 120000 (-120000)). lia.
Defined.

(** ** Provider selection before and after the override *)

(** X7. Without a recognised POC_PROVIDER the resolver picks what the
    earlier version picked from the keys alone: the same endpoint, the same
    key and the same label. *)
Theorem auto_selection_matches_gen :
  forall (env : Env),
    let explicit := Js.toLowerCase <$> (env !! "POC_PROVIDER") in
    explicit <> Some "kimi_code" -> explicit <> Some "moonshot" ->
    getPocApiUrl env = Gen.getPocApiUrl env
    /\ getPocApiKey env = Gen.getPocApiKey env
    /\ apiNameOf (resolvePocProvider env) = Gen.apiName env.
Proof.
  intros env explicit H1 H2.
  unfold getPocApiUrl, getPocApiKey, Gen.getPocApiUrl, Gen.getPocApiKey, Gen.apiName,
    resolvePocProvider.
  fold explicit. rewrite !decide_False by assumption.
  unfold Js.orElse.
  destruct (Js.truthy (env !! "KIMI_CODE_API_KEY")); repeat split.
Qed.

Lemma auto_selection_witness :
  getPocApiUrl keyEnv = Gen.getPocApiUrl keyEnv
  /\ getPocApiKey keyEnv = Gen.getPocApiKey keyEnv
  /\ apiNameOf (resolvePocProvider keyEnv) = Gen.apiName keyEnv.
Proof.
  apply (auto_selection_matches_gen keyEnv); vm_compute; discriminate.
Defined.

(** With the override the two part ways: the key of the named provider is
    used, not the first key that is set. *)
Example override_departs_from_gen :
  getPocApiKey overrideEnv = None /\ Gen.getPocApiKey overrideEnv = Some "sk-kimi".
Proof. vm_compute. split; reflexivity. Qed.

(** ** What the loop sends *)

Lemma classify_continue_cases cfg apiName attempt maxTok res ms maxTok' :
  classify cfg apiName attempt maxTok res = Continue ms maxTok' ->
  (ms = backoffDelay attempt /\ maxTok' = maxTok)
  \/ (ms = 1000 /\ maxTok' = maxTok)
  \/ (ms = 1000 /\ 2048 < maxTok /\ maxTok' = maxTok / 2).
Proof.
  unfold classify.
  destruct (backoffStatus (status res)).
  { destruct (Z.of_nat attempt <? retries cfg); intros [= <- <-]; auto. }
  destruct (status res =? 400).
  { destruct (hasTransient (Js.toLowerCase (body res)) && (Z.of_nat attempt <? retries cfg));
      [intros [= <- <-]; auto |].
    destruct (hasTokenLimit (Js.toLowerCase (body res)) && (Z.of_nat attempt <? retries cfg)
              && (2048 <? maxTok)) eqn:E; [| discriminate].
    intros [= <- <-]. right. right.
    apply andb_true_iff in E as [_ E]. apply Z.ltb_lt in E. auto. }
  destruct (negb (ok res)); [discriminate |].
  destruct (emptyContent (content res)); [| discriminate].
  destruct (Z.of_nat attempt <? retries cfg); intros [= <- <-]; auto.
Qed.


Section Requests.

Variable env : Env.
Variable cfg : PocCfg.
Variable net : nat -> Request -> Response.
Variables system user apiKey : string.

Local Abbreviation run := (attempts env cfg net system user apiKey).
Local Abbreviation req := (mkRequest env system user apiKey).
Local Abbreviation step a mt :=
  (classify cfg (apiNameOf (resolvePocProvider env)) a mt (net a (req mt))).

Lemma attempts_requests n : forall a mt r,
  In r (fetches (snd (run n a mt))) ->
  exists mt', r = req mt' /\ mt' <= mt /\ (mt' = mt \/ 1024 <= mt').
Proof.
  induction n as [|n IH]; intros a mt r Hin; [destruct Hin |].
  destruct (step a mt) eqn:E.
  - rewrite (attempts_return _ _ _ _ _ _ _ _ _ _ E) in Hin.
    destruct Hin as [<- | []]. exists mt. repeat split; [lia | auto].
  - rewrite (attempts_continue _ _ _ _ _ _ _ _ _ _ _ E) in Hin.
    destruct Hin as [<- | Hin]; [exists mt; repeat split; [lia | auto] |].
    destruct (IH _ _ _ Hin) as (mt' & -> & Hle & Hlo).
    exists mt'. split; [reflexivity |].
    destruct (classify_continue_cases _ _ _ _ _ _ _ E)
      as [[_ ->] | [[_ ->] | (_ & Hbig & ->)]]; [auto | auto |].
    assert (1024 <= mt / 2) by (apply Z.div_le_lower_bound; lia).
    assert (mt / 2 <= mt) by (apply Z.div_le_upper_bound; lia).
    split; [lia | right; lia].
  - rewrite (attempts_throw _ _ _ _ _ _ _ _ _ _ E) in Hin.
    destruct Hin as [<- | []]. exists mt. repeat split; [lia | auto].
Qed.

(** A pass that ends the loop sleeps no more: requests outnumber sleeps by one. *)
Lemma attempts_ends_on_fetch n : forall a mt,
  Z.of_nat a + Z.of_nat n = retries cfg + 1 -> (0 < n)%nat ->
  length (fetches (snd (run n a mt))) = S (length (sleeps (snd (run n a mt)))).
Proof.
  induction n as [|n IH]; intros a mt Hn Hpos; [lia |].
  destruct (step a mt) eqn:E.
  - rewrite (attempts_return _ _ _ _ _ _ _ _ _ _ E). reflexivity.
  - rewrite (attempts_continue _ _ _ _ _ _ _ _ _ _ _ E). simpl.
    apply classify_continue in E. rewrite IH by lia. reflexivity.
  - rewrite (attempts_throw _ _ _ _ _ _ _ _ _ _ E). reflexivity.
Qed.

(** Each sleep is at most the backoff of its attempt, so the sleeps of the
    passes from [a] on stay below the rest of the geometric sum. *)
Lemma attempts_sleep_sum n : forall a mt,
  Z.of_nat a + Z.of_nat n = retries cfg + 1 -> (0 < n)%nat ->
  sumZ (sleeps (snd (run n a mt)))
  <= 3000 * (2 ^ retries cfg - 2 ^ Z.of_nat a).
Proof.
  induction n as [|n IH]; intros a mt Hn Hpos; [lia |].
  assert (Hpow : 2 ^ Z.of_nat a <= 2 ^ retries cfg)
    by (apply Z.pow_le_mono_r; lia).
  destruct (step a mt) eqn:E.
  - rewrite (attempts_return _ _ _ _ _ _ _ _ _ _ E). simpl. lia.
  - rewrite (attempts_continue _ _ _ _ _ _ _ _ _ _ _ E). simpl.
    pose proof (classify_continue _ _ _ _ _ _ _ E) as Hmore.
    specialize (IH (S a) maxTokens' ltac:(lia) ltac:(lia)).
    replace (Z.of_nat (S a)) with (Z.succ (Z.of_nat a)) in IH by lia.
    rewrite Z.pow_succ_r in IH by lia.
    assert (Hone : 1 <= 2 ^ Z.of_nat a) by (apply Z.pow_le_mono_r with (b := 0); lia).
    assert (sleepMs <= 3000 * 2 ^ Z.of_nat a).
    { destruct (classify_continue_cases _ _ _ _ _ _ _ E)
        as [[-> _] | [[-> _] | (-> & _)]]; unfold backoffDelay; lia. }
    lia.
  - rewrite (attempts_throw _ _ _ _ _ _ _ _ _ _ E). simpl. lia.
Qed.


End Requests.

(** X8. Every request of a call goes to the endpoint of the resolved
    provider with that provider's own non-empty key, the resolved model and
    the two prompts as given: retries change none of them. *)
Theorem requests_use_resolved_provider :
  forall (env : Env) cfg net system user r,
    In r (fetches (snd (callLLM env cfg net system user))) ->
    req_url r = getPocApiUrl env
    /\ env !! credentialVar (resolvePocProvider env) = Some (req_bearer r)
    /\ req_bearer r <> ""
    /\ req_model r = getPocModel env
    /\ req_system r = system
    /\ req_user r = user.
Proof.
  intros env cfg net system user r. unfold callLLM.
  destruct (getPocApiKey env) as [apiKey|] eqn:Hk; [| intros []].
  intros Hin. apply attempts_requests in Hin as (mt & -> & _).
  destruct (getPocApiKey_some env apiKey Hk) as [Hcred Hne].
  simpl. split; [reflexivity |]. split; [exact Hcred |]. split; [exact Hne |].
  split; [reflexivity |]. split; reflexivity.
Qed.

Lemma requests_use_resolved_provider_witness :
  req_url keyReq = getPocApiUrl keyEnv
  /\ keyEnv !! credentialVar (resolvePocProvider keyEnv) = Some (req_bearer keyReq)
  /\ req_bearer keyReq <> ""
  /\ req_model keyReq = getPocModel keyEnv
  /\ req_system keyReq = "sys"
  /\ req_user keyReq = "usr".
Proof.
  apply (requests_use_resolved_provider keyEnv (POC_CFG keyEnv) busyTwice "sys" "usr").
  vm_compute. left. reflexivity.
Defined.

(** X9. The [max_tokens] of a request never exceeds the configured value,
    and is either that value or at least 1024: the downshift halves only
    values above 2048. *)
Theorem max_tokens_stays_in_range :
  forall (env : Env) cfg net system user r,
    In r (fetches (snd (callLLM env cfg net system user))) ->
    req_max_tokens r <= maxTokens cfg
    /\ (req_max_tokens r = maxTokens cfg \/ 1024 <= req_max_tokens r).
Proof.
  intros env cfg net system user r. unfold callLLM.
  destruct (getPocApiKey env) as [apiKey|]; [| intros []].
  intros Hin. apply attempts_requests in Hin as (mt & -> & Hle & Hlo).
  simpl. auto.
Qed.

Lemma max_tokens_stays_in_range_witness :
  req_max_tokens (mkRequest keyEnv "sys" "usr" "sk-moon" 2048) <= 4096
  /\ (req_max_tokens (mkRequest keyEnv "sys" "usr" "sk-moon" 2048) = 4096
      \/ 1024 <= req_max_tokens (mkRequest keyEnv "sys" "usr" "sk-moon" 2048)).
Proof.
  apply (max_tokens_stays_in_range keyEnv (POC_CFG keyEnv)
           (fun _ _ => http 400 "maximum context length exceeded") "sys" "usr").
  vm_compute. right. left. reflexivity.
Defined.

(** X10. With a key and a retry count that is not negative the call
    always resolves or rejects, and its last event is a request: there is
    one request more than there are sleeps. A negative retry count skips
    the loop: no request is sent and the code after the loop is reached. *)
Theorem callLLM_settles_on_a_request :
  forall (env : Env) cfg net system user apiKey,
    getPocApiKey env = Some apiKey ->
    (0 <= retries cfg ->
     fst (callLLM env cfg net system user) <> FellThrough
     /\ length (fetches (snd (callLLM env cfg net system user)))
        = S (length (sleeps (snd (callLLM env cfg net system user)))))
    /\ (retries cfg < 0 ->
        callLLM env cfg net system user = (FellThrough, [])).
Proof.
  intros env cfg net system user apiKey Hk. split.
  - intros Hr. split; [apply callLLM_settles, Hr |].
    unfold callLLM. rewrite Hk. apply attempts_ends_on_fetch; lia.
  - intros Hr. apply (callLLM_negative_retries _ _ _ _ _ apiKey Hk Hr).
Qed.

Lemma callLLM_settles_witness :
  (fst (callLLM keyEnv (POC_CFG keyEnv) busyThenEmpty "sys" "usr") <> FellThrough
   /\ length (fetches (snd (callLLM keyEnv (POC_CFG keyEnv) busyThenEmpty "sys" "usr")))
      = S (length (sleeps (snd (callLLM keyEnv (POC_CFG keyEnv) busyThenEmpty
                                  "sys" "usr")))))
  /\ callLLM keyEnv (POC_CFG noRetriesEnv) busyTwice "sys" "usr" = (FellThrough, []).
Proof.
  split.
  - apply (proj1 (callLLM_settles_on_a_request keyEnv (POC_CFG keyEnv) busyThenEmpty
                    "sys" "usr" "sk-moon" eq_refl)).
    vm_compute. discriminate.
  - apply (proj2 (callLLM_settles_on_a_request keyEnv (POC_CFG noRetriesEnv) busyTwice
                    "sys" "usr" "sk-moon" eq_refl)).
    vm_compute. reflexivity.
Defined.

(** X11. The delays that one call passes to [sleep] add up to at most
    3000 * (2^R - 1) ms, where R is the retry count, or 0 when that is
    negative: 9000 ms with the default of 2, and no sleep at all with a
    negative count, whatever the replies. *)
Theorem total_sleep_is_bounded :
  forall (env : Env) cfg net system user,
    sumZ (sleeps (snd (callLLM env cfg net system user)))
    <= 3000 * (2 ^ Z.max 0 (retries cfg) - 1)
    /\ (retries cfg < 0 -> sleeps (snd (callLLM env cfg net system user)) = []).
Proof.
  intros env cfg net system user.
  assert (Hone : 1 <= 2 ^ Z.max 0 (retries cfg))
    by (apply Z.pow_le_mono_r with (b := 0); lia).
  unfold callLLM. destruct (getPocApiKey env) as [apiKey|]; [| simpl; split; [lia | auto]].
  destruct (Z.lt_ge_cases (retries cfg) 0) as [Hneg | Hr].
  - replace (Z.to_nat (retries cfg + 1)) with 0%nat by lia. simpl. split; [lia | auto].
  - split; [| lia]. rewrite Z.max_r by lia.
    pose proof (attempts_sleep_sum env cfg net system user apiKey
                  (Z.to_nat (retries cfg + 1)) 0 (maxTokens cfg)) as H.
    simpl Z.of_nat in H. rewrite Z.pow_0_r in H. apply H; lia.
Qed.

Lemma total_sleep_witness :
  sumZ (sleeps (snd (callLLM keyEnv (POC_CFG keyEnv) busyTwice "sys" "usr")))
  <= 3000 * (2 ^ Z.max 0 (retries (POC_CFG keyEnv)) - 1)
  /\ sleeps (snd (callLLM keyEnv (POC_CFG noRetriesEnv) busyTwice "sys" "usr")) = [].
Proof.
  split.
  - apply (proj1 (total_sleep_is_bounded keyEnv (POC_CFG keyEnv) busyTwice "sys" "usr")).
  - apply (proj2 (total_sleep_is_bounded keyEnv (POC_CFG noRetriesEnv) busyTwice
                    "sys" "usr")).
    vm_compute. reflexivity.
Defined.



(** ** What a rejection carries *)

(** X13. The rejection for a 429, a 5xx or a 400 carries a prefix of the
    response body of at most 300 characters; the rejection for any other
    status that is not 2xx carries the whole body, however long. *)
Theorem rejection_detail_length :
  forall cfg apiName attempt maxTok res,
    (forall e,
        classify cfg apiName attempt maxTok res = Throw e ->
        backoffStatus (status res) = true \/ status res = 400 ->
        (String.length (errorDetail e) <= 300)%nat
        /\ String.prefix (errorDetail e) (body res) = true)
    /\ (backoffStatus (status res) = false -> status res <> 400 -> ok res = false ->
        classify cfg apiName attempt maxTok res
        = Throw (HttpError apiName (status res) (body res))).
Proof.
  intros cfg apiName attempt maxTok res. split.
  - intros e He Hst.
    assert (Hd : errorDetail e = Js.sliceTo 300 (body res)).
    { destruct Hst as [Hb | H400].
      - rewrite classify_backoff in He by exact Hb.
        destruct (Z.of_nat attempt <? retries cfg); [discriminate |].
        injection He as <-. reflexivity.
      - rewrite classify_400 in He by exact H400. cbv zeta in He.
        repeat match type of He with
               | (if ?c then _ else _) = _ => destruct c
               end; try discriminate.
        injection He as <-. reflexivity. }
    rewrite Hd. split; [apply sliceTo_length | apply sliceTo_prefix].
  - intros Hb H400 Hok. unfold classify. rewrite Hb, Hok.
    apply Z.eqb_neq in H400. rewrite H400. reflexivity.
Qed.

Lemma rejection_detail_witness :
  ((String.length (errorDetail (Deterministic400 "Moonshot" "invalid model")) <= 300)%nat
   /\ String.prefix (errorDetail (Deterministic400 "Moonshot" "invalid model"))
        (body (http 400 "invalid model")) = true)
  /\ classify (POC_CFG keyEnv) "Moonshot" 0 4096 (http 404 "no such route")
     = Throw (HttpError "Moonshot" 404 "no such route").
Proof.
  split.
  - apply (proj1 (rejection_detail_length (POC_CFG keyEnv) "Moonshot" 0%nat 4096
                    (http 400 "invalid model"))).
    + vm_compute. reflexivity.
    + right. reflexivity.
  - apply (proj2 (rejection_detail_length (POC_CFG keyEnv) "Moonshot" 0%nat 4096
                    (http 404 "no such route"))).
    + reflexivity.
    + vm_compute. discriminate.
    + reflexivity.
Defined.

(** ** The loop before and after the 400 classification *)







(** The old loop spends every attempt on a 400 that cannot succeed. *)
Example gen_retries_invalid_model :
  length (fetches (snd (Gen.attempts keyEnv (POC_CFG keyEnv)
                          (fun i _ => invalidModel i) "sys" "usr" "sk-moon" 3 0)))
  = 3%nat
  /\ length (fetches (snd (callLLM keyEnv (POC_CFG keyEnv)
                             (fun i _ => invalidModel i) "sys" "usr")))
     = 1%nat.
Proof. vm_compute. split; reflexivity. Qed.

(** ** The batch as a whole *)

(** X15. The dispatcher returns one result per item, in the order of the
    input: the result at position N is what [generateSinglePoC] resolved to
    for item N, whatever the durations and the concurrency. *)
Theorem dispatch_keeps_input_order :
  forall (T A : Type) cfg (gen : nat -> T -> Work A) (sleepTakes : Z -> Z)
         (items : list T) (timeline : list (Slot A)),
    dispatch cfg gen sleepTakes items = Some timeline ->
    length timeline = length items
    /\ forall N finding,
         items !! N = Some finding ->
         exists s, timeline !! N = Some s /\ outcome s = result (gen N finding).
Proof.
  intros T A cfg gen sleepTakes items timeline Hd. unfold dispatch in Hd.
  destruct (1 <=? concurrency cfg); [| discriminate]. injection Hd as <-.
  split; [apply schedule_length |].
  intros N finding Hf.
  destruct (lookup_lt_is_Some_2
              (schedule cfg gen sleepTakes (repeat 0 (Z.to_nat (concurrency cfg))) 0 items) N)
    as [s Hs].
  { rewrite schedule_length. apply lookup_lt_Some in Hf. exact Hf. }
  exists s. split; [exact Hs |].
  apply (schedule_outcome cfg gen sleepTakes _ _ _ _ _ _ Hs Hf).
Qed.

Lemma dispatch_keeps_input_order_witness :
  length threeSlots = length threeFindings
  /\ forall N finding,
       threeFindings !! N = Some finding ->
       exists s, threeSlots !! N = Some s /\ outcome s = result (flaky N finding).
Proof.
  apply (dispatch_keeps_input_order Finding bool (POC_CFG keyEnv) flaky (Z.max 0)).
  vm_compute. reflexivity.
Defined.

Lemma schedule_single_finish {T A : Type} cfg (gen : nat -> T -> Work A) sleepTakes
    items : forall t idx N s,
  schedule cfg gen sleepTakes [t] idx items !! N = Some s ->
  finished s
  = t + workDone gen idx items (S N)
    + Z.of_nat (if (0 <? idx)%nat then S N else N)
      * sleepTakes (interRequestDelayMs cfg).
Proof.
  assert (He : forall t, earliest [t] = t) by (intros t; unfold earliest; simpl; lia).
  induction items as [|f rest IH]; intros t idx N s Hs; [discriminate |].
  cbn [schedule] in Hs. rewrite He in Hs. cbn [occupy] in Hs.
  rewrite Z.eqb_refl in Hs.
  destruct N as [|N].
  - simpl in Hs. injection Hs as <-. cbn [finished workDone].
    replace (workDone gen (S idx) rest 0) with 0 by (destruct rest; reflexivity).
    destruct (0 <? idx)%nat; lia.
  - simpl in Hs. rewrite (IH _ _ _ _ Hs). cbn [workDone].
    change (0 <? S idx)%nat with true. cbv iota.
    destruct (0 <? idx)%nat; lia.
Qed.

(** X16. With concurrency = 1 the batch is strictly sequential: item N is
    done after the work of items 0 to N and N cooldowns, so the delays add
    to the work instead of overlapping it. *)
Theorem sequential_batch_duration :
  forall (T A : Type) cfg (gen : nat -> T -> Work A) (sleepTakes : Z -> Z)
         (items : list T) (timeline : list (Slot A)),
    concurrency cfg = 1 ->
    dispatch cfg gen sleepTakes items = Some timeline ->
    forall N s,
      timeline !! N = Some s ->
      finished s
      = workDone gen 0 items (S N)
        + Z.of_nat N * sleepTakes (interRequestDelayMs cfg).
Proof.
  intros T A cfg gen sleepTakes items timeline Hone Hd N s Hs.
  unfold dispatch in Hd. rewrite Hone in Hd. simpl in Hd. injection Hd as <-.
  rewrite (schedule_single_finish cfg gen sleepTakes items 0 0 N s Hs).
  change (0 <? 0)%nat with false. cbv iota. lia.
Qed.

Lemma sequential_batch_witness :
  finished {| admitted := 15000; slept := Some 2000; issued := 17000;
              finished := 21000; outcome := true |}
  = workDone flaky 0 threeFindings 3 + Z.of_nat 2 * Z.max 0 2000.
Proof.
  apply (sequential_batch_duration Finding bool (POC_CFG keyEnv) flaky (Z.max 0)
           threeFindings threeSlots).
  - vm_compute. reflexivity.
  - vm_compute. reflexivity.
  - reflexivity.
Defined.

(** ** The submission endpoint *)

Lemma lastSet_fold (get : Submission.Run -> option string) rs : forall acc,
  Js.truthy
    (fold_left (fun acc run => if Js.truthy (get run) then get run else acc) rs acc)
  = Js.truthy acc || existsb (fun run => Js.truthy (get run)) rs.
Proof.
  induction rs as [|r rs IH]; intros acc; simpl; [rewrite orb_false_r; reflexivity |].
  rewrite IH. destruct (Js.truthy (get r)) eqn:E; simpl.
  - rewrite E, orb_true_r. reflexivity.
  - reflexivity.
Qed.

Lemma lastSet_truthy get rs :
  Js.truthy (Submission.lastSet get rs) = true
  <-> exists run, In run rs /\ Js.truthy (get run) = true.
Proof.
  unfold Submission.lastSet. rewrite lastSet_fold. simpl. apply existsb_exists.
Qed.

Lemma lastSet_last get before run after :
  Js.truthy (get run) = true ->
  Forall (fun x => Js.truthy (get x) = false) after ->
  Submission.lastSet get (before ++ run :: after)%list = get run.
Proof.
  intros Hrun Hafter. unfold Submission.lastSet.
  rewrite fold_left_app. simpl. rewrite Hrun.
  generalize (get run) as acc.
  induction Hafter as [|x after Hx _ IH]; intros acc; simpl; [reflexivity |].
  rewrite Hx. apply IH.
Qed.

Lemma GET_succeeded (job : Submission.Job) sign :
  Submission.status job = "SUCCEEDED" ->
  exists body,
    Submission.GET false (Submission.Found job) sign = Submission.Json200 body
    /\ Submission.bodyPrUrl body
       = Submission.lastSet Submission.prUrl (default [] (Submission.runs job))
    /\ Submission.writeupGistUrl body
       = Submission.lastSet Submission.writeupUrl (default [] (Submission.runs job))
    /\ Submission.bodyWriteupUrl body
       = Js.orElse (Submission.writeupGistUrl body) (Submission.writeupR2Url body)
    /\ Submission.ready body
       = Js.truthy (Submission.bodyPrUrl body)
         && Js.truthy (Submission.bodyWriteupUrl body)
    /\ Submission.bodyMessage body
       = Submission.message (Submission.bodyPrUrl body) (Submission.bodyWriteupUrl body).
Proof.
  intros Hs. unfold Submission.GET. rewrite Hs. simpl negb. cbv iota.
  eexists. split; [reflexivity |]. simpl. repeat split.
Qed.

(** X17. The endpoint says ready exactly when some run of a SUCCEEDED job
    recorded a pull request link and a writeup link exists, from a run or as
    a signed storage link. A job in any other state gets the 400 reply,
    whatever links it has. *)
Theorem submission_ready_iff :
  forall (job : Submission.Job) sign,
    (Submission.status job = "SUCCEEDED" ->
     exists body,
       Submission.GET false (Submission.Found job) sign = Submission.Json200 body
       /\ (Submission.ready body = true
           <-> (exists run, In run (default [] (Submission.runs job))
                            /\ Js.truthy (Submission.prUrl run) = true)
               /\ ((exists run, In run (default [] (Submission.runs job))
                                /\ Js.truthy (Submission.writeupUrl run) = true)
                   \/ Js.truthy (Submission.writeupR2Url body) = true)))
    /\ (Submission.status job <> "SUCCEEDED" ->
        Submission.GET false (Submission.Found job) sign
        = Submission.Json400 (Submission.status job)).
Proof.
  intros job sign. split.
  - intros Hs.
    destruct (GET_succeeded job sign Hs) as (body & Hget & Hpr & Hgist & Hw & Hready & _).
    exists body. split; [exact Hget |].
    rewrite Hready, andb_true_iff, Hpr, lastSet_truthy, Hw.
    unfold Js.orElse. rewrite <- (lastSet_truthy Submission.writeupUrl), <- Hgist.
    destruct (Js.truthy (Submission.writeupGistUrl body)) eqn:E.
    + rewrite E. intuition.
    + intuition; discriminate.
  - intros Hs. unfold Submission.GET.
    apply String.eqb_neq in Hs. rewrite Hs. reflexivity.
Qed.

Lemma submission_ready_witness :
  (exists body,
     Submission.GET false (Submission.Found doneJob) signAll = Submission.Json200 body
     /\ (Submission.ready body = true
         <-> (exists run, In run (default [] (Submission.runs doneJob))
                          /\ Js.truthy (Submission.prUrl run) = true)
             /\ ((exists run, In run (default [] (Submission.runs doneJob))
                              /\ Js.truthy (Submission.writeupUrl run) = true)
                 \/ Js.truthy (Submission.writeupR2Url body) = true)))
  /\ Submission.GET false (Submission.Found runningJob) signAll
     = Submission.Json400 "RUNNING".
Proof.
  split.
  - apply (proj1 (submission_ready_iff doneJob signAll)). reflexivity.
  - apply (proj2 (submission_ready_iff runningJob signAll)). discriminate.
Defined.

(** X18. Of several runs the last one with a pull request link gives the
    link of the reply, and a writeup link recorded by a run is preferred to
    the signed storage link, which is used only when no run has one. *)
Theorem submission_link_precedence :
  forall (job : Submission.Job) sign before run after,
    Submission.status job = "SUCCEEDED" ->
    Submission.runs job = Some (before ++ run :: after)%list ->
    Js.truthy (Submission.prUrl run) = true ->
    Forall (fun x => Js.truthy (Submission.prUrl x) = false) after ->
    exists body,
      Submission.GET false (Submission.Found job) sign = Submission.Json200 body
      /\ Submission.bodyPrUrl body = Submission.prUrl run
      /\ (Js.truthy (Submission.writeupGistUrl body) = true ->
          Submission.bodyWriteupUrl body = Submission.writeupGistUrl body)
      /\ (Js.truthy (Submission.writeupGistUrl body) = false ->
          Submission.bodyWriteupUrl body = Submission.writeupR2Url body).
Proof.
  intros job sign before run after Hs Hruns Hrun Hafter.
  destruct (GET_succeeded job sign Hs) as (body & Hget & Hpr & _ & Hw & _).
  exists body. split; [exact Hget |]. split.
  - rewrite Hpr, Hruns. simpl default. apply lastSet_last; assumption.
  - rewrite Hw. unfold Js.orElse. split; intros ->; reflexivity.
Qed.

Lemma submission_link_precedence_witness :
  exists body,
    Submission.GET false (Submission.Found doneJob) signAll = Submission.Json200 body
    /\ Submission.bodyPrUrl body = Some "https://github.com/o/r/pull/2"
    /\ (Js.truthy (Submission.writeupGistUrl body) = true ->
        Submission.bodyWriteupUrl body = Submission.writeupGistUrl body)
    /\ (Js.truthy (Submission.writeupGistUrl body) = false ->
        Submission.bodyWriteupUrl body = Submission.writeupR2Url body).
Proof.
  apply (submission_link_precedence doneJob signAll
           [{| Submission.prUrl := Some "https://github.com/o/r/pull/1";
               Submission.writeupUrl := None |}]
           {| Submission.prUrl := Some "https://github.com/o/r/pull/2";
              Submission.writeupUrl := Some "" |}
           [{| Submission.prUrl := None; Submission.writeupUrl := None |}]).
  - reflexivity.
  - reflexivity.
  - reflexivity.
  - repeat constructor.
Defined.

(** X19. When the reply is not ready its message names what is missing and
    nothing else: the PR link, the writeup link, or both joined by a plus. *)
Theorem submission_message_names_missing :
  forall (job : Submission.Job) sign body,
    Submission.GET false (Submission.Found job) sign = Submission.Json200 body ->
    Submission.bodyMessage body
    = match Js.truthy (Submission.bodyPrUrl body),
            Js.truthy (Submission.bodyWriteupUrl body) with
      | true, true =>
          "Submission ready. Use prUrl and writeupUrl for the bounty API call."
      | false, true => "Missing: PR link"
      | true, false => "Missing: writeup link"
      | false, false => "Missing: PR link + writeup link"
      end.
Proof.
  intros job sign body H. unfold Submission.GET in H.
  destruct (negb (Submission.status job =? "SUCCEEDED")%string); [discriminate |].
  injection H as <-. simpl. unfold Submission.message.
  destruct (Js.truthy (Submission.lastSet Submission.prUrl _));
    destruct (Js.truthy (Js.orElse _ _)); reflexivity.
Qed.

Lemma submission_message_witness :
  Submission.bodyMessage noLinksBody = "Missing: PR link + writeup link".
Proof.
  apply (submission_message_names_missing noLinksJob (fun _ => None) noLinksBody).
  reflexivity.
Defined.

(** ** The grep token *)








Example grep_token_42 :
  grepToken finding42 = "PoC#42"
  /\ runCommand true finding42 "missing_signer"
     = "cd <repo> && anchor test -- --grep " ++ Js.dquote ++ "PoC#42" ++ Js.dquote
  /\ runCommand false finding42 "missing_signer"
     = "cd <repo> && cargo test-sbf poc_42_missing_signer"
  /\ Js.includes describeRule (fallbackDescribe finding42) = true
  /\ regexSafe (title retitled42) = false.
Proof. vm_compute. repeat split. Qed.
